(** * Photo editor: AI request orchestration and compositing pipeline

    A shallow embedding of [services/geminiService.ts] (retry helper and
    remote detection), [services/imageUtils.ts] (canvas compositing, zip
    export) and the handlers of [App.tsx] (adjustment updates, privacy
    detection queue, quota cooldown, batch download).

    Conventions of the embedding:
    - asynchronous code runs on one logical thread, so an [await] chain is a
      state-passing function over a [World] (remote service state, wall
      clock in milliseconds, trace of observable events);
    - a rejected promise / thrown exception is the right injection of a sum;
    - JavaScript numbers that hold times and counters are [Z]; adjustment
      values and canvas coordinates are exact rationals [Q];
    - a [Set<string>] is a [gset string], the entry table of a JSZip
      archive is a [gmap string _]. *)

From Stdlib Require Import ZArith QArith Qround.
From stdpp Require Import gmap strings list pretty.
From Equations Require Import Equations.

Local Open Scope string_scope.
Local Open Scope list_scope.
Local Open Scope Z_scope.

(** ** Errors *)

(** Values that the modelled code throws.  [GeminiQuotaError] is the class
    declared at the top of geminiService.ts; every other error object is
    described by the four properties the code inspects. *)
Inductive JsError : Type :=
| GeminiQuotaError
| OtherError (name : string) (status code : option Z) (message : option string).

Definition err_name (e : JsError) : string :=
  match e with
  | GeminiQuotaError => "GeminiQuotaError"
  | OtherError n _ _ _ => n
  end.

Definition err_status (e : JsError) : option Z :=
  match e with
  | GeminiQuotaError => None
  | OtherError _ s _ _ => s
  end.

Definition err_code (e : JsError) : option Z :=
  match e with
  | GeminiQuotaError => None
  | OtherError _ _ c _ => c
  end.

Definition err_message (e : JsError) : option string :=
  match e with
  | GeminiQuotaError => Some "Cota da API Gemini excedida (429)."
  | OtherError _ _ _ m => m
  end.

(** [String.prototype.includes]. *)
Fixpoint includes (needle hay : string) : bool :=
  String.prefix needle hay ||
  match hay with
  | EmptyString => false
  | String _ rest => includes needle rest
  end.

(** [error?.message && error.message.includes(k)]: the empty string is
    falsy. *)
Definition message_includes (k : string) (e : JsError) : bool :=
  match err_message e with
  | Some m => negb (String.eqb m "") && includes k m
  | None => false
  end.

(** The classification computed in the [catch] of [retryWithBackoff]. *)
Definition isRateLimit (e : JsError) : bool :=
  bool_decide (err_status e = Some 429)
  || bool_decide (err_code e = Some 429)
  || message_includes "429" e
  || message_includes "Quota" e.

(** [e instanceof GeminiQuotaError || e.name === 'GeminiQuotaError']. *)
Definition isGeminiQuotaError (e : JsError) : bool :=
  match e with
  | GeminiQuotaError => true
  | OtherError n _ _ _ => String.eqb n "GeminiQuotaError"
  end.

(** ** The world an asynchronous task runs in *)

Inductive Event : Type :=
| EvFetch (url : string)      (* fetch of an image source *)
| EvRemote                    (* one invocation of a wrapped remote call *)
| EvWait (ms : Z).            (* an awaited timer *)

Section World.
(** State of everything outside the program: network and remote model. *)
Context {St : Type}.

Record World : Type := mkWorld {
  remote : St;
  now : Z;                  (* Date.now() *)
  trace : list Event
}.

(** An asynchronous operation: outcome, next outside state and the time
    that elapsed until the promise settled. *)
Definition Op (T : Type) : Type := St -> (T + JsError) * St * N.

Definition perform {T} (ev : Event) (fn : Op T) (w : World)
  : (T + JsError) * World :=
  let '(r, st', d) := fn (remote w) in
  (r, {| remote := st'; now := now w + Z.of_N d; trace := trace w ++ [ev] |}).

(** [const wait = (ms) => new Promise(resolve => setTimeout(resolve, ms))] *)
Definition wait (ms : Z) (w : World) : World :=
  {| remote := remote w; now := now w + Z.max 0 ms;
     trace := trace w ++ [EvWait ms] |}.

(** *** retryWithBackoff *)

Equations? retryWithBackoff {T} (fn : Op T) (retries delay : Z) (w : World)
  : (T + JsError) * World by wf (Z.to_nat retries) lt :=
  retryWithBackoff fn retries delay w with perform EvRemote fn w => {
    | (inl v, w1) => (inl v, w1)
    | (inr error, w1) with isRateLimit error => {
        | true with decide (0 < retries) => {
            | left Hpos =>
                retryWithBackoff fn (retries - 1) (delay * 2) (wait delay w1)
            | right _ => (inr GeminiQuotaError, w1) }
        | false => (inr error, w1) } }.
Proof. lia. Qed.

End World.

Arguments World : clear implicits.
Arguments Op : clear implicits.

(** ** Data model (types.ts) *)

Record Adjustments : Type := mkAdjustments {
  brightness : Q;
  contrast : Q;
  saturation : Q;
  blur : Q;
  sepia : Q;
  grayscale : Q;
  warmth : Q;
  watermark : string;
  overlayImage : option string;
  overlayX : Q;
  overlayY : Q;
  overlayScale : Q;
  overlayOpacity : option Q;   (* tested against undefined by the pipeline *)
  privacyBlur : bool
}.

Record BoundingBox : Type := mkBoundingBox {
  ymin : Z;
  xmin : Z;
  ymax : Z;
  xmax : Z
}.

(** [privacyRegions?: BoundingBox[]]: [None] is the absent state, [Some []]
    the empty detection result. *)
Record ImageFile : Type := mkImageFile {
  id : string;
  originalUrl : string;
  previewUrl : string;
  name : string;
  type : string;
  adjustments : Adjustments;
  privacyRegions : option (list BoundingBox)
}.

(** The React state of [App] that the modelled handlers read and write. *)
Record AppState : Type := mkAppState {
  images : list ImageFile;
  viewImageId : option string;
  selectedImageIds : gset string;
  isProcessing : bool;
  processingMsg : string;
  quotaCooldown : Z;
  isDetectingPrivacyRef : bool
}.

Definition setImages (f : list ImageFile -> list ImageFile) (s : AppState) : AppState :=
  mkAppState (f (images s)) (viewImageId s) (selectedImageIds s) (isProcessing s)
             (processingMsg s) (quotaCooldown s) (isDetectingPrivacyRef s).

Definition setQuotaCooldown (t : Z) (s : AppState) : AppState :=
  mkAppState (images s) (viewImageId s) (selectedImageIds s) (isProcessing s)
             (processingMsg s) t (isDetectingPrivacyRef s).

Definition setProcessingMsg (m : string) (s : AppState) : AppState :=
  mkAppState (images s) (viewImageId s) (selectedImageIds s) (isProcessing s)
             m (quotaCooldown s) (isDetectingPrivacyRef s).

Definition setIsProcessing (b : bool) (s : AppState) : AppState :=
  mkAppState (images s) (viewImageId s) (selectedImageIds s) b
             (processingMsg s) (quotaCooldown s) (isDetectingPrivacyRef s).

Definition setIsDetectingPrivacy (b : bool) (s : AppState) : AppState :=
  mkAppState (images s) (viewImageId s) (selectedImageIds s) (isProcessing s)
             (processingMsg s) (quotaCooldown s) b.

(** [selectedImageIds.has(x)] *)
Definition has (ids : gset string) (x : string) : bool := bool_decide (x ∈ ids).

(** ** updateAdjustments (App.tsx) *)

Definition withAdjustments (newAdj : Adjustments) (img : ImageFile) : ImageFile :=
  mkImageFile (id img) (originalUrl img) (previewUrl img) (name img) (type img)
              newAdj (privacyRegions img).

Definition updateAdjustments (newAdj : Adjustments) (s : AppState) : AppState :=
  setImages (map (fun img =>
    if has (selectedImageIds s) (id img) then withAdjustments newAdj img else img)) s.

(** ** Quota circuit breaker (App.tsx) *)

Definition isQuotaExhausted (quotaCooldown_ now_ : Z) : bool := now_ <? quotaCooldown_.

(** [Math.ceil((quotaCooldown - Date.now()) / 1000)] *)
Definition cooldownRemaining (quotaCooldown_ now_ : Z) : Z :=
  Qceiling (inject_Z (quotaCooldown_ - now_) / inject_Z 1000).

(** The header badge [{isQuotaExhausted && <span>{cooldownRemaining}s</span>}]:
    the number shown, if any. *)
Definition cooldownBadge (quotaCooldown_ now_ : Z) : option Z :=
  if isQuotaExhausted quotaCooldown_ now_
  then Some (cooldownRemaining quotaCooldown_ now_) else None.

(** One firing of the 1000 ms interval installed while [quotaCooldown > 0]. *)
Definition cooldownTick (now_ : Z) (s : AppState) : AppState :=
  if 0 <? quotaCooldown s then
    if quotaCooldown s <? now_ then setQuotaCooldown 0 s else s
  else s.

(** ** Remote privacy detection and its scheduler *)

Inductive LoopExit : Type :=
| Exhausted          (* the for-of loop ran out of candidates *)
| BreakCooldown      (* break at the in-loop cooldown check *)
| BreakQuota.        (* break in the catch, after a quota error *)

Section Detection.
Context {St : Type}.
(** [process.env.API_KEY] *)
Variable API_KEY : option string.
(** The async arrow function that [detectPrivacyObjects] wraps: one
    generateContent request and the parsing of its answer. *)
Variable requestBoxes : string -> Op St (list BoundingBox).
(** [fetch(url)], [res.blob()] and [blobToBase64(blob)]. *)
Variable fetchBase64 : string -> Op St string.

(** [getAiClient() !== null] *)
Definition getAiClient : bool :=
  match API_KEY with
  | Some k => negb (String.eqb k "")
  | None => false
  end.

(** Result [inl None] is the JavaScript [null]. *)
Definition detectPrivacyObjects (base64Image : string) (w : World St)
  : (option (list BoundingBox) + JsError) * World St :=
  if negb getAiClient then (inl (Some []), w)
  else
    match retryWithBackoff (requestBoxes base64Image) 2 2000 w with
    | (inl boxes, w1) => (inl (Some boxes), w1)
    | (inr error, w1) =>
        if isGeminiQuotaError error then (inr error, w1) else (inl None, w1)
    end.

Definition needsDetection (s : AppState) : list ImageFile :=
  filter (fun img =>
            has (selectedImageIds s) (id img)
            && privacyBlur (adjustments img)
            && negb (bool_decide (is_Some (privacyRegions img))))
         (images s).

Definition isViewed (s : AppState) (img : ImageFile) : bool :=
  bool_decide (Some (id img) = viewImageId s).

Definition detectionQueue (s : AppState) : list ImageFile :=
  match find (isViewed s) (needsDetection s) with
  | Some prio => prio :: filter (fun i => negb (isViewed s i)) (needsDetection s)
  | None => needsDetection s
  end.

(** The body of the [try] for one candidate, up to the assignment of
    [boxes]. *)
Definition detectFor (img : ImageFile) (w : World St)
  : (option (list BoundingBox) + JsError) * World St :=
  match perform (EvFetch (originalUrl img)) (fetchBase64 (originalUrl img)) w with
  | (inl base64, w1) => detectPrivacyObjects base64 w1
  | (inr e, w1) => (inr e, w1)
  end.

Definition withRegions (boxes : list BoundingBox) (i : ImageFile) : ImageFile :=
  mkImageFile (id i) (originalUrl i) (previewUrl i) (name i) (type i)
              (adjustments i) (Some boxes).

Definition storeRegions (target : string) (boxes : list BoundingBox)
  : AppState -> AppState :=
  setImages (map (fun i =>
    if String.eqb (id i) target then withRegions boxes i else i)).

(** The [for (const img of queue)] loop; [quotaCooldown_] is the value
    captured by the closure when the effect was created. *)
Fixpoint processQueue (quotaCooldown_ : Z) (queue : list ImageFile)
         (s : AppState) (w : World St) : AppState * World St * LoopExit :=
  match queue with
  | [] => (s, w, Exhausted)
  | img :: rest =>
      if now w <? quotaCooldown_ then (s, w, BreakCooldown)
      else
        match detectFor img w with
        | (inl boxes, w1) =>
            let s1 := match boxes with
                      | Some bs => storeRegions (id img) bs s
                      | None => s
                      end in
            processQueue quotaCooldown_ rest s1 (wait 4000 w1)
        | (inr e, w1) =>
            if isGeminiQuotaError e then
              (setProcessingMsg "Cota de IA atingida. Pausando por 60s..."
                 (setQuotaCooldown (now w1 + 60 * 1000) s), w1, BreakQuota)
            else processQueue quotaCooldown_ rest s w1
        end
  end.

Definition checkPrivacy (s : AppState) (w : World St) : AppState * World St :=
  if isDetectingPrivacyRef s then (s, w)
  else if now w <? quotaCooldown s then (s, w)
  else if Nat.eqb (length (needsDetection s)) 0 then (s, w)
  else
    let '(s1, w1, _) :=
      processQueue (quotaCooldown s) (detectionQueue s)
                   (setIsDetectingPrivacy true s) w in
    (setIsDetectingPrivacy false s1, w1).

End Detection.

(** ** Canvas 2D context (the part of the browser API the pipeline uses) *)

Inductive FilterFn : Type :=
| FBrightness (pct : Q)
| FContrast (pct : Q)
| FSaturate (pct : Q)
| FBlur (px : Q)
| FSepia (pct : Q)
| FGrayscale (pct : Q).

(** The filter list written by the template string, in its order. *)
Definition generateCssFilterString (adj : Adjustments) : list FilterFn :=
  [ FBrightness (brightness adj); FContrast (contrast adj);
    FSaturate (saturation adj); FBlur (blur adj);
    FSepia (sepia adj); FGrayscale (grayscale adj) ].

Inductive Color : Type :=
| black                              (* the initial fillStyle, #000000 *)
| rgb (r g b : Z)
| rgba (r g b : Z) (a : Q).

(** Values of [globalCompositeOperation]; [SourceOver] is the initial one. *)
Inductive CompositeOp : Type :=
| SourceOver | Multiply | Screen | Overlay | Darken | Lighten
| ColorBurn | HardLight | SoftLight.

Inductive Font : Type :=
| defaultFont                        (* 10px sans-serif *)
| boldSansSerif (px : Q).

Inductive TextAlign : Type := AlignStart | AlignRight.
Inductive TextBaseline : Type := BaselineAlphabetic | BaselineBottom.

Record Ctx : Type := mkCtx {
  filter_ : list FilterFn;           (* [] is 'none' *)
  fillStyle : Color;
  globalAlpha : Q;
  globalCompositeOperation : CompositeOp;
  font : Font;
  textAlign : TextAlign;
  textBaseline : TextBaseline;
  shadowColor : Color;
  shadowBlur : Q
}.

Definition initialCtx : Ctx :=
  mkCtx [] black 1%Q SourceOver defaultFont AlignStart BaselineAlphabetic (rgba 0 0 0 0%Q) 0%Q.

(** What was painted, each call with the context state it was issued in. *)
Local Unset Elimination Schemes.
Inductive Paint : Type :=
| PDrawImage (c : Ctx) (url : string) (x y : Q) (size : option (Q * Q))
| PDrawCanvas (c : Ctx) (source : list Paint) (x y : Q)
| PFillRect (c : Ctx) (x y w h : Q)
| PClearRect (x y w h : Q)
| PFillText (c : Ctx) (text : string) (x y : Q).
Local Set Elimination Schemes.

Record Canvas2D : Type := mkCanvas2D {
  ctx : Ctx;
  painted : list Paint
}.

Definition blank : Canvas2D := mkCanvas2D initialCtx [].

Definition setCtx (f : Ctx -> Ctx) (cv : Canvas2D) : Canvas2D :=
  mkCanvas2D (f (ctx cv)) (painted cv).

Definition setFilter (v : list FilterFn) : Canvas2D -> Canvas2D :=
  setCtx (fun c => mkCtx v (fillStyle c) (globalAlpha c) (globalCompositeOperation c)
                         (font c) (textAlign c) (textBaseline c) (shadowColor c) (shadowBlur c)).
Definition setFillStyle (v : Color) : Canvas2D -> Canvas2D :=
  setCtx (fun c => mkCtx (filter_ c) v (globalAlpha c) (globalCompositeOperation c)
                         (font c) (textAlign c) (textBaseline c) (shadowColor c) (shadowBlur c)).
Definition setGlobalAlpha (v : Q) : Canvas2D -> Canvas2D :=
  setCtx (fun c => mkCtx (filter_ c) (fillStyle c) v (globalCompositeOperation c)
                         (font c) (textAlign c) (textBaseline c) (shadowColor c) (shadowBlur c)).
Definition setFont (v : Font) : Canvas2D -> Canvas2D :=
  setCtx (fun c => mkCtx (filter_ c) (fillStyle c) (globalAlpha c) (globalCompositeOperation c)
                         v (textAlign c) (textBaseline c) (shadowColor c) (shadowBlur c)).
Definition setTextAlign (v : TextAlign) : Canvas2D -> Canvas2D :=
  setCtx (fun c => mkCtx (filter_ c) (fillStyle c) (globalAlpha c) (globalCompositeOperation c)
                         (font c) v (textBaseline c) (shadowColor c) (shadowBlur c)).
Definition setTextBaseline (v : TextBaseline) : Canvas2D -> Canvas2D :=
  setCtx (fun c => mkCtx (filter_ c) (fillStyle c) (globalAlpha c) (globalCompositeOperation c)
                         (font c) (textAlign c) v (shadowColor c) (shadowBlur c)).
Definition setShadowColor (v : Color) : Canvas2D -> Canvas2D :=
  setCtx (fun c => mkCtx (filter_ c) (fillStyle c) (globalAlpha c) (globalCompositeOperation c)
                         (font c) (textAlign c) (textBaseline c) v (shadowBlur c)).
Definition setShadowBlur (v : Q) : Canvas2D -> Canvas2D :=
  setCtx (fun c => mkCtx (filter_ c) (fillStyle c) (globalAlpha c) (globalCompositeOperation c)
                         (font c) (textAlign c) (textBaseline c) (shadowColor c) v).

Definition paint (p : Paint) (cv : Canvas2D) : Canvas2D :=
  mkCanvas2D (ctx cv) (painted cv ++ [p]).

Definition drawImage (url : string) (x y : Q) (size : option (Q * Q)) (cv : Canvas2D) :=
  paint (PDrawImage (ctx cv) url x y size) cv.
Definition drawCanvas (source : list Paint) (x y : Q) (cv : Canvas2D) :=
  paint (PDrawCanvas (ctx cv) source x y) cv.
Definition fillRect (x y w h : Q) (cv : Canvas2D) :=
  paint (PFillRect (ctx cv) x y w h) cv.
Definition clearRect (x y w h : Q) (cv : Canvas2D) :=
  paint (PClearRect x y w h) cv.
Definition fillText (text : string) (x y : Q) (cv : Canvas2D) :=
  paint (PFillText (ctx cv) text x y) cv.

(** How the overlay image settled before it is drawn. *)
Inductive OverlayLoad : Type :=
| OverlayReady (width height : Z)    (* decoded, [complete] is true *)
| OverlayIncomplete                  (* [complete] is false *)
| OverlayBroken.                     (* [complete] is true, drawImage throws *)

(** The browser facilities [processImageOnCanvas] depends on. *)
Record Browser : Type := mkBrowser {
  (** [img.onload] with the decoded size, or [img.onerror]. *)
  loadImage : string -> option (Z * Z);
  (** whether [canvas.getContext('2d')] returns a context *)
  mainContext : bool;
  (** the same for the scratch canvas of the filter pass *)
  filterContext : bool;
  (** [ctx.getImageData(x, y, w, h)] on the current contents: the byte
      array, or [None] when the call throws *)
  getImageData : list Paint -> Z -> Z -> Z -> Z -> option (Z -> Z);
  loadOverlay : string -> OverlayLoad;
  (** whether [canvas.toBlob] hands a blob to its callback *)
  toBlob : Z -> Z -> list Paint -> bool
}.

Record Blob : Type := mkBlob {
  blob_width : Z;
  blob_height : Z;
  blob_pixels : list Paint;
  blob_type : string;
  blob_quality : Q
}.

(** ** processImageOnCanvas (imageUtils.ts) *)

Local Open Scope Q_scope.

(** [a || d] on numbers: zero is falsy. *)
Definition orDefault (a d : Q) : Q := if Qeq_bool a 0 then d else a.

(** [Math.max(a, b)] *)
Definition mathMax (a b : Q) : Q := if Qle_bool a b then b else a.

(** The values taken by a [for (p = 0; p < limit; p += step)] counter. *)
Fixpoint stride (fuel : nat) (p limit step : Z) : list Z :=
  match fuel with
  | O => []
  | S fuel' => if (p <? limit)%Z then p :: stride fuel' (p + step)%Z limit step else []
  end.

Section Pipeline.
Variable B : Browser.
Variable adjustments_ : Adjustments.
(** [canvas.width], [canvas.height] *)
Variables W H : Z.

Definition blockSize : Z := Z.max 10 (Qfloor (inject_Z W * (2 # 100))).

(** Body of the two nested block loops for one sampled pixel. *)
Definition pixelate (data : Z -> Z) (x y w : Z) (py px : Z) (cv : Canvas2D)
  : Canvas2D :=
  let pixelIndex := ((py * w + px) * 4)%Z in
  let r := data pixelIndex in
  let g := data (pixelIndex + 1)%Z in
  let b := data (pixelIndex + 2)%Z in
  fillRect (inject_Z (x + px)) (inject_Z (y + py))
           (inject_Z blockSize) (inject_Z blockSize)
           (setFillStyle (rgb r g b) cv).

(** The pixel rectangle [(x, y, w, h)] computed for a region. *)
Definition regionRect (box : BoundingBox) : Z * Z * Z * Z :=
  let y := Qfloor (inject_Z (ymin box) / 1000 * inject_Z H) in
  let x := Qfloor (inject_Z (xmin box) / 1000 * inject_Z W) in
  let h := Qfloor (inject_Z (ymax box - ymin box) / 1000 * inject_Z H) in
  let w := Qfloor (inject_Z (xmax box - xmin box) / 1000 * inject_Z W) in
  (x, y, w, h).

(** Body of [privacyRegions.forEach]. *)
Definition blurRegion (cv : Canvas2D) (box : BoundingBox) : Canvas2D :=
  let '(x, y, w, h) := regionRect box in
  if ((w <=? 0) || (h <=? 0))%Z then cv
  else
    match getImageData B (painted cv) x y w h with
    | Some data =>
        foldl (fun cv1 py =>
                 foldl (fun cv2 px => pixelate data x y w py px cv2)
                       cv1 (stride (Z.to_nat w) 0 w blockSize))
              cv (stride (Z.to_nat h) 0 h blockSize)
    | None => cv                    (* caught and logged *)
    end.

(** 2. Apply Privacy Blurring *)
Definition stagePrivacy (privacyRegions_ : list BoundingBox) (cv : Canvas2D)
  : Canvas2D :=
  if privacyBlur adjustments_ && (0 <? length privacyRegions_)%nat
  then foldl blurRegion cv privacyRegions_
  else cv.

(** 3. Global CSS Filters *)
Definition stageFilters (cv : Canvas2D) : Canvas2D :=
  if filterContext B then
    let filterCanvas :=
      drawCanvas (painted cv) 0 0
                 (setFilter (generateCssFilterString adjustments_) blank) in
    drawCanvas (painted filterCanvas) 0 0
               (clearRect 0 0 (inject_Z W) (inject_Z H) cv)
  else cv.

(** 4. Warmth Overlay *)
Definition stageWarmth (cv : Canvas2D) : Canvas2D :=
  if Qlt_le_dec 0 (warmth adjustments_) then
    fillRect 0 0 (inject_Z W) (inject_Z H)
             (setFillStyle (rgba 255 160 0 (warmth adjustments_ / 500))
                           (setFilter [] cv))
  else cv.

(** 5. Image Overlay *)
Definition stageOverlay (cv : Canvas2D) : Canvas2D :=
  match overlayImage adjustments_ with
  | None => cv
  | Some src =>
      if String.eqb src "" then cv
      else
        let cv := setFilter [] cv in
        let opacity := match overlayOpacity adjustments_ with
                       | Some o => o
                       | None => 1
                       end in
        match loadOverlay B src with
        | OverlayIncomplete => cv
        | OverlayBroken => setGlobalAlpha opacity cv
        | OverlayReady ow oh =>
            let scale := orDefault (overlayScale adjustments_) (2 # 10) in
            let aspect := inject_Z ow / inject_Z oh in
            let drawWidth := inject_Z W * scale in
            let drawHeight := drawWidth / aspect in
            let posX := inject_Z W * orDefault (overlayX adjustments_) (5 # 10)
                        - drawWidth / 2 in
            let posY := inject_Z H * orDefault (overlayY adjustments_) (5 # 10)
                        - drawHeight / 2 in
            setGlobalAlpha 1
              (drawImage src posX posY (Some (drawWidth, drawHeight))
                 (setGlobalAlpha opacity cv))
        end
  end.

(** 6. Text Watermark *)
Definition stageWatermark (cv : Canvas2D) : Canvas2D :=
  if String.eqb (watermark adjustments_) "" then cv
  else
    let fontSize := mathMax 20 (inject_Z W * (5 # 100)) in
    let padding := inject_Z W * (2 # 100) in
    fillText (watermark adjustments_)
             (inject_Z W - padding) (inject_Z H - padding)
      (setShadowBlur 4
        (setShadowColor (rgba 0 0 0 (5 # 10))
          (setTextBaseline BaselineBottom
            (setTextAlign AlignRight
              (setFillStyle (rgba 255 255 255 (7 # 10))
                (setFont (boldSansSerif fontSize)
                  (setFilter [] cv))))))).

(** Everything painted between [ctx.drawImage(img, 0, 0)] and
    [canvas.toBlob]. *)
Definition composite (imageUrl : string) (privacyRegions_ : list BoundingBox)
  : Canvas2D :=
  stageWatermark
    (stageOverlay
      (stageWarmth
        (stageFilters
          (stagePrivacy privacyRegions_
            (drawImage imageUrl 0 0 None blank))))).

End Pipeline.

Definition canvasContextError : JsError :=
  OtherError "Error" None None (Some "Could not get canvas context").
Definition canvasConversionError : JsError :=
  OtherError "Error" None None (Some "Canvas conversion failed").
(** The error event handed to [img.onerror]. *)
Definition imageLoadError : JsError := OtherError "error" None None None.

(** The promise returned by [processImageOnCanvas]: fulfilled with a blob
    or rejected.  Missing [privacyRegions] and [quality] take the
    parameter defaults. *)
Definition processImageOnCanvas (B : Browser) (imageUrl : string)
           (adjustments_ : Adjustments)
           (privacyRegions_ : option (list BoundingBox)) (quality : option Q)
  : Blob + JsError :=
  let regions := match privacyRegions_ with Some r => r | None => [] end in
  let q := match quality with Some q => q | None => 9 # 10 end in
  match loadImage B imageUrl with
  | None => inr imageLoadError
  | Some (W, H) =>
      if negb (mainContext B) then inr canvasContextError
      else
        let cv := composite B adjustments_ W H imageUrl regions in
        if toBlob B W H (painted cv)
        then inl (mkBlob W H (painted cv) "image/jpeg" q)
        else inr canvasConversionError
  end.

Local Close Scope Q_scope.

(** ** Batch export (imageUtils.ts, App.tsx) *)

Inductive Payload : Type :=
| ImageBlob (b : Blob)
| ZipArchive (entries : gmap string Blob).

(** A file handed to the browser by [downloadBlob]. *)
Record Download : Type := mkDownload {
  payload : Payload;
  filename : string
}.

(** [{ blob: Blob; name: string }] *)
Record ProcessedFile : Type := mkProcessedFile {
  file_blob : Blob;
  file_name : string
}.

(** What the user sees of an export besides the React state. *)
Record Outcome : Type := mkOutcome {
  downloads : list Download;
  alerts : list string;
  (** the "Processando i/n: name" status lines, as (i, n, name) *)
  progress : list (nat * nat * string)
}.

Definition downloadBlob (p : Payload) (filename_ : string) (o : Outcome) : Outcome :=
  mkOutcome (downloads o ++ [mkDownload p filename_]) (alerts o) (progress o).

Definition alert (msg : string) (o : Outcome) : Outcome :=
  mkOutcome (downloads o) (alerts o ++ [msg]) (progress o).

Definition report (i n : nat) (name_ : string) (o : Outcome) : Outcome :=
  mkOutcome (downloads o) (alerts o) (progress o ++ [(i, n, name_)]).

(** [zip.file(name, blob)] adds the entry or replaces the entry of that
    name; the archive is the table built by the [forEach]. *)
Definition zipFiles (files : list ProcessedFile) : gmap string Blob :=
  foldl (fun zip file => <[file_name file := file_blob file]> zip) ∅ files.

Definition downloadAsZip (files : list ProcessedFile) (zipFilename : string)
  : Outcome -> Outcome :=
  downloadBlob (ZipArchive (zipFiles files)) zipFilename.

Section BatchDownload.
Variable B : Browser.

(** The images the export works on. *)
Definition targets (s : AppState) : list ImageFile :=
  let targetIds :=
    if (0 <? size (selectedImageIds s))%nat
    then elements (selectedImageIds s)
    else map id (images s) in
  filter (fun i => bool_decide (id i ∈ targetIds)) (images s).

(** The [for (let i = 0; i < targets.length; i++)] loop: [todo] are the
    targets from index [i] on, [total] is [targets.length]. *)
Fixpoint renderLoop (todo : list ImageFile) (i total : nat)
         (processedFiles : list ProcessedFile) (o : Outcome)
  : (list ProcessedFile + JsError) * Outcome :=
  match todo with
  | [] => (inl processedFiles, o)
  | img :: rest =>
      let o1 := report (i + 1) total (name img) o in
      match processImageOnCanvas B (originalUrl img) (adjustments img)
                                 (privacyRegions img) None with
      | inl processedBlob =>
          renderLoop rest (S i) total
            (processedFiles ++ [mkProcessedFile processedBlob ("edited_" +:+ name img)])
            o1
      | inr e => (inr e, o1)
      end
  end.

Definition noOutcome : Outcome := mkOutcome [] [] [].

Definition handleBatchDownload (s : AppState) : AppState * Outcome :=
  if Nat.eqb (length (images s)) 0 then (s, noOutcome)
  else
    let ts := targets s in
    let o :=
      match renderLoop ts 0 (length ts) [] noOutcome with
      | (inl processedFiles, o1) =>
          match processedFiles with
          | [file] => downloadBlob (ImageBlob (file_blob file)) (file_name file) o1
          | _ :: _ :: _ => downloadAsZip processedFiles "lumina_fotos_editadas.zip" o1
          | [] => o1
          end
      | (inr e, o1) => alert "Erro durante o download em lote." o1
      end in
    (setProcessingMsg "" (setIsProcessing false s), o).

End BatchDownload.

(** ** Specification-level vocabulary *)

(** The classification in the words of the specification: status 429,
    numeric code 429, or a message containing "429" or "Quota". *)
Definition QuotaClassified (e : JsError) : Prop :=
  err_status e = Some 429 \/ err_code e = Some 429 \/
  exists m, err_message e = Some m /\
            (includes "429" m = true \/ includes "Quota" m = true).


(** The ids of a list of images, in order. *)
Definition ids (l : list ImageFile) : list string := map id l.

(** The world only moves forward: the clock does not go back and the trace
    is only appended to. *)
Definition extends {St} (w w' : World St) : Prop :=
  now w <= now w' /\ trace w `prefix_of` trace w'.

(** Nothing in the pipeline assigns [globalCompositeOperation]; this is
    the state it starts in. *)
Definition sourceOver (cv : Canvas2D) : Prop :=
  globalCompositeOperation (ctx cv) = SourceOver.

(** The frame the stages after the tone filters paint over: source image,
    redaction and tone filters. *)
Definition filteredBase (B : Browser) (adj : Adjustments) (W H : Z)
           (imageUrl : string) (regions : list BoundingBox) : Canvas2D :=
  stageFilters B adj W H
    (stagePrivacy B adj W H regions (drawImage imageUrl 0 0 None blank)).

(** ** Concrete scenarios

    Small closed instances of the environment, used to run the model. *)

Module Scenario.

(** [DEFAULT_ADJUSTMENTS] of constants.ts. *)
Definition DEFAULT_ADJUSTMENTS : Adjustments :=
  mkAdjustments 100 100 100 0 0 0 0 "" None (5 # 10) (5 # 10) (2 # 10)
                (Some 1%Q) false.

Definition withPrivacyBlur (b : bool) (a : Adjustments) : Adjustments :=
  mkAdjustments (brightness a) (contrast a) (saturation a) (blur a) (sepia a)
                (grayscale a) (warmth a) (watermark a) (overlayImage a)
                (overlayX a) (overlayY a) (overlayScale a) (overlayOpacity a) b.

Definition blurOn : Adjustments := withPrivacyBlur true DEFAULT_ADJUSTMENTS.

Definition photo (id_ : string) (adj : Adjustments)
           (regions : option (list BoundingBox)) : ImageFile :=
  mkImageFile id_ ("blob:" +:+ id_) ("blob:" +:+ id_) (id_ +:+ ".jpg")
              "image/jpeg" adj regions.

Definition app (imgs : list ImageFile) (view : option string)
           (selected : gset string) : AppState :=
  mkAppState imgs view selected false "" 0 false.

(** Three images with privacy blur on: "a" never scanned and not
    selected, "b" scanned clean and selected, "c" never scanned and
    selected. *)
Definition imgA : ImageFile := photo "a" blurOn None.
Definition imgB : ImageFile := photo "b" blurOn (Some []).
Definition imgC : ImageFile := photo "c" blurOn None.
Definition mixed : AppState := app [imgA; imgB; imgC] (Some "b") {["b"; "c"]}.

(** A remote service whose state counts the requests it received. *)
Definition w0 : World nat := mkWorld 0%nat 1000 [].

Definition resourceExhausted : JsError :=
  OtherError "ApiError" (Some 429) None (Some "RESOURCE_EXHAUSTED").
Definition badRequest : JsError :=
  OtherError "ApiError" (Some 400) None (Some "INVALID_ARGUMENT").

(** Every request is answered with status 429 after 5 ms. *)
Definition alwaysQuota {T} : Op nat T :=
  fun n => (inr resourceExhausted, S n, 5%N).
(** Every request is answered with status 400 after 5 ms. *)
Definition alwaysBadRequest {T} : Op nat T :=
  fun n => (inr badRequest, S n, 5%N).

(** *** A detection run

    Four selected images with privacy blur on and no region state; "z"
    is the viewed one.  The source of "u" cannot be fetched.  The remote
    model answers its first request and rejects every later one with
    status 429. *)
Definition API_KEY : option string := Some "test-key".
Definition face : BoundingBox := mkBoundingBox 100 200 300 400.
Definition failedToFetch : JsError :=
  OtherError "TypeError" None None (Some "Failed to fetch").

Definition requestBoxes (base64 : string) : Op nat (list BoundingBox) :=
  fun n => match n with
           | O => (inl [face], 1%nat, 300%N)
           | S _ => (inr resourceExhausted, S n, 5%N)
           end.
Definition fetchBase64 (url : string) : Op nat string :=
  fun n => if String.eqb url "blob:u"
           then (inr failedToFetch, n, 3%N)
           else (inl url, n, 10%N).

Definition imgU : ImageFile := photo "u" blurOn None.
Definition imgX : ImageFile := photo "x" blurOn None.
Definition imgY : ImageFile := photo "y" blurOn None.
Definition imgZ : ImageFile := photo "z" blurOn None.
Definition gallery : AppState :=
  app [imgU; imgX; imgY; imgZ] (Some "z") {["u"; "x"; "y"; "z"]}.

(** *** Compositing and export

    A browser that decodes every source as an 800x600 image, provides
    both contexts and encodes every canvas. *)
Definition browser : Browser :=
  mkBrowser (fun _ => Some (800, 600)) true true
            (fun _ _ _ _ _ => Some (fun _ => 128))
            (fun _ => OverlayReady 100 50)
            (fun _ _ _ => true).

(** [{ ...DEFAULT_ADJUSTMENTS, ...FILTERS[FilterType.CINEMATIC] }] *)
Definition cinematic : Adjustments :=
  mkAdjustments 100 110 90 0 0 0 20 "" None (5 # 10) (5 # 10) (2 # 10)
                (Some 1%Q) false.

Definition withWatermark (t : string) (a : Adjustments) : Adjustments :=
  mkAdjustments (brightness a) (contrast a) (saturation a) (blur a) (sepia a)
                (grayscale a) (warmth a) t (overlayImage a)
                (overlayX a) (overlayY a) (overlayScale a) (overlayOpacity a)
                (privacyBlur a).

(** A region whose lower edge lies above its upper edge. *)
Definition upsideDown : BoundingBox := mkBoundingBox 500 250 250 750.
Definition imgBad : ImageFile := photo "bad" blurOn (Some [upsideDown]).
Definition badRegionExport : AppState := app [imgBad] (Some "bad") {["bad"]}.

(** A valid region on a canvas whose pixels cannot be read back. *)
Definition taintedBrowser : Browser :=
  mkBrowser (fun _ => Some (800, 600)) true true
            (fun _ _ _ _ _ => None)
            (fun _ => OverlayReady 100 50)
            (fun _ _ _ => true).
Definition imgFace : ImageFile := photo "face" blurOn (Some [face]).
Definition taintedExport : AppState := app [imgFace] (Some "face") {["face"]}.

(** Three images of which the second cannot be decoded. *)
Definition brokenSecond : Browser :=
  mkBrowser (fun url => if String.eqb url "blob:p2" then None else Some (800, 600))
            true true
            (fun _ _ _ _ _ => Some (fun _ => 128))
            (fun _ => OverlayReady 100 50)
            (fun _ _ _ => true).
Definition p1 : ImageFile := photo "p1" DEFAULT_ADJUSTMENTS None.
Definition p2 : ImageFile := photo "p2" DEFAULT_ADJUSTMENTS None.
Definition p3 : ImageFile := photo "p3" DEFAULT_ADJUSTMENTS None.
Definition threePhotos : AppState :=
  app [p1; p2; p3] (Some "p1") {["p1"; "p2"; "p3"]}.

(** The same file name uploaded twice. *)
Definition shot (id_ : string) : ImageFile :=
  mkImageFile id_ ("blob:" +:+ id_) ("blob:" +:+ id_) "IMG_0001.jpg"
              "image/jpeg" DEFAULT_ADJUSTMENTS None.
Definition sameNames : AppState :=
  app [shot "id-1"; shot "id-2"] (Some "id-1") {["id-1"; "id-2"]}.

End Scenario.


(** * Further model: the remaining service functions and handlers *)

(** ** Vocabulary for traces *)

(** The events of one [retryWithBackoff] invocation that retries [k]
    times: [k + 1] calls, a wait before each but the first, the wait
    doubling from [delay]. *)
Fixpoint backoffTrace (k : nat) (delay : Z) : list Event :=
  match k with
  | O => [EvRemote]
  | S k' => EvRemote :: EvWait delay :: backoffTrace k' (delay * 2)
  end.

Definition isRemote (ev : Event) : bool :=
  match ev with
  | EvRemote => true
  | _ => false
  end.

(** Number of calls of a wrapped remote operation in a trace. *)
Definition attempts (evs : list Event) : nat := length (List.filter isRemote evs).

(** ** analyzeImageForEnhancement, removeBackgroundWithAI (geminiService.ts) *)

(** The four properties read from the parsed answer; a field is [Some]
    when [typeof] of it is ['number']. *)
Record ParsedSuggestion : Type := mkParsedSuggestion {
  parsed_brightness : option Q;
  parsed_contrast : option Q;
  parsed_saturation : option Q;
  parsed_warmth : option Q
}.

(** The non-empty [Partial<Adjustments>] the function returns. *)
Record Suggestion : Type := mkSuggestion {
  suggested_brightness : Q;
  suggested_contrast : Q;
  suggested_saturation : Q;
  suggested_warmth : Q
}.

(** The object literal returned after a successful [JSON.parse]. *)
Definition fillSuggestion (data : ParsedSuggestion) : Suggestion :=
  mkSuggestion (default 100%Q (parsed_brightness data))
               (default 100%Q (parsed_contrast data))
               (default 100%Q (parsed_saturation data))
               (default 0%Q (parsed_warmth data)).

Definition apiKeyMissing : JsError :=
  OtherError "Error" None None (Some "API Key missing").

Definition noTransparentImage : JsError :=
  OtherError "Error" None None
    (Some "A IA não retornou uma imagem transparente válida. Tente uma imagem com o objeto mais definido.").

Section Service.
Context {St : Type}.
Variable API_KEY : option string.
(** One generateContent request for a suggestion, the cleaning of its
    text and [JSON.parse]: [inl None] when the text does not parse,
    [inr] when the request or the reading of the parsed value throws. *)
Variable requestSuggestion : string -> Op St (option ParsedSuggestion).
(** One generateContent request for a cut-out: the data of the first
    inline image part of the first candidate, if any.  The argument is
    absent when the caller had no payload to send. *)
Variable requestCutout : option string -> Op St (option string).

(** The async arrow function wrapped by [analyzeImageForEnhancement]. *)
Definition suggestionAttempt (base64Image : string) : Op St (option Suggestion) :=
  fun st =>
    match requestSuggestion base64Image st with
    | (inl (Some data), st', d) => (inl (Some (fillSuggestion data)), st', d)
    | (inl None, st', d) => (inl None, st', d)
    | (inr error, st', d) => (inr error, st', d)
    end.

(** Result [inl None] is the empty object. *)
Definition analyzeImageForEnhancement (base64Image : string) (w : World St)
  : (option Suggestion + JsError) * World St :=
  if negb (getAiClient API_KEY) then (inl None, w)
  else retryWithBackoff (suggestionAttempt base64Image) 2 2000 w.

(** The async arrow function wrapped by [removeBackgroundWithAI]. *)
Definition cutoutAttempt (base64Image : option string) : Op St string :=
  fun st =>
    match requestCutout base64Image st with
    | (inl (Some data), st', d) => (inl data, st', d)
    | (inl None, st', d) => (inr noTransparentImage, st', d)
    | (inr error, st', d) => (inr error, st', d)
    end.

Definition removeBackgroundWithAI (base64Image : option string) (w : World St)
  : (string + JsError) * World St :=
  if negb (getAiClient API_KEY) then (inr apiKeyMissing, w)
  else retryWithBackoff (cutoutAttempt base64Image) 2 2000 w.

End Service.

(** ** Data URLs *)

(** [String.prototype.split] with a one-character separator. *)
Fixpoint split (sep : Ascii.ascii) (s : string) : list string :=
  match s with
  | EmptyString => [EmptyString]
  | String c rest =>
      if Ascii.eqb c sep then EmptyString :: split sep rest
      else match split sep rest with
           | first :: others => String c first :: others
           | [] => [String c EmptyString]
           end
  end.

(** [Array.prototype.join] with a one-character separator. *)
Fixpoint join (sep : Ascii.ascii) (parts : list string) : string :=
  match parts with
  | [] => EmptyString
  | [p] => p
  | p :: rest => p +:+ String sep (join sep rest)
  end.

Definition comma : Ascii.ascii := Ascii.Ascii false false true true false true false false.

(** Whether the character occurs in the string. *)
Fixpoint contains (c : Ascii.ascii) (s : string) : bool :=
  match s with
  | EmptyString => false
  | String c' rest => Ascii.eqb c' c || contains c rest
  end.

(** [s.split(',')[1]]; [None] is [undefined]. *)
Definition afterComma (s : string) : option string := split comma s !! 1%nat.

(** The result of [FileReader.readAsDataURL] for a payload of the given
    media type. *)
Definition dataUrl (mime payload : string) : string :=
  "data:" +:+ mime +:+ ";base64," +:+ payload.

(** [blobToBase64], given what the reader produced for the blob. *)
Definition blobToBase64 (readerResult : string) : option string :=
  afterComma readerResult.

(** ** AI handlers of App.tsx *)

(** [images.find((img) => img.id === viewImageId) || null] *)
Definition viewedImage (s : AppState) : option ImageFile :=
  find (isViewed s) (images s).

(** [{ ...adjustments, ...suggestion }] for a non-empty suggestion. *)
Definition mergeSuggestion (a : Adjustments) (sg : Suggestion) : Adjustments :=
  mkAdjustments (suggested_brightness sg) (suggested_contrast sg)
                (suggested_saturation sg) (blur a) (sepia a) (grayscale a)
                (suggested_warmth sg) (watermark a) (overlayImage a)
                (overlayX a) (overlayY a) (overlayScale a) (overlayOpacity a)
                (privacyBlur a).

(** [{ ...adjustments, overlayImage: url }] *)
Definition withOverlayImage (url : option string) (a : Adjustments) : Adjustments :=
  mkAdjustments (brightness a) (contrast a) (saturation a) (blur a) (sepia a)
                (grayscale a) (warmth a) (watermark a) url
                (overlayX a) (overlayY a) (overlayScale a) (overlayOpacity a)
                (privacyBlur a).

Section AiHandlers.
Context {St : Type}.
Variable API_KEY : option string.
Variable requestSuggestion : string -> Op St (option ParsedSuggestion).
Variable requestCutout : option string -> Op St (option string).
Variable fetchBase64 : string -> Op St string.

(** [renderedAt] is [Date.now()] of the render that computed
    [isQuotaExhausted] and [cooldownRemaining] for the handler's closure.
    The timers that clear the status message later are not part of the
    handler's own run. *)
Definition handleAutoEnhance (renderedAt : Z) (s : AppState) (w : World St)
  : AppState * World St :=
  match viewedImage s with
  | None => (s, w)
  | Some viewed =>
      if isQuotaExhausted (quotaCooldown s) renderedAt then
        (setProcessingMsg
           ("Aguarde " +:+ pretty (cooldownRemaining (quotaCooldown s) renderedAt)
            +:+ "s para usar IA novamente.") s, w)
      else
        let s0 := setProcessingMsg "Melhoria IA..." (setIsProcessing true s) in
        let '(outcome, w') :=
          match perform (EvFetch (originalUrl viewed))
                        (fetchBase64 (originalUrl viewed)) w with
          | (inl base64, w1) =>
              analyzeImageForEnhancement API_KEY requestSuggestion base64 w1
          | (inr e, w1) => (inr e, w1)
          end in
        let s1 :=
          match outcome with
          | inl (Some suggestion) =>
              updateAdjustments (mergeSuggestion (adjustments viewed) suggestion) s0
          | inl None => s0
          | inr e =>
              if isGeminiQuotaError e then
                setProcessingMsg "Cota atingida. Tente novamente em 60s."
                  (setQuotaCooldown (now w' + 60000) s0)
              else setProcessingMsg "Falha na análise." s0
          end in
        (setIsProcessing false s1, w')
  end.

Definition handleRemoveBackground (renderedAt : Z) (s : AppState) (w : World St)
  : AppState * World St :=
  match viewedImage s with
  | None => (s, w)
  | Some viewed =>
      match overlayImage (adjustments viewed) with
      | None => (s, w)
      | Some overlay =>
          if String.eqb overlay "" then (s, w)
          else if isQuotaExhausted (quotaCooldown s) renderedAt then
            (setProcessingMsg
               ("Cota atingida. Aguarde "
                +:+ pretty (cooldownRemaining (quotaCooldown s) renderedAt)
                +:+ "s.") s, w)
          else
            let s0 := setProcessingMsg "Removendo fundo (IA)..."
                        (setIsProcessing true s) in
            let base64Clean := afterComma overlay in
            match removeBackgroundWithAI API_KEY requestCutout base64Clean w with
            | (inl newImageBase64, w') =>
                let newDataUrl := "data:image/png;base64," +:+ newImageBase64 in
                (setIsProcessing false
                   (setProcessingMsg "Fundo removido com sucesso!"
                      (updateAdjustments
                         (withOverlayImage (Some newDataUrl) (adjustments viewed))
                         s0)), w')
            | (inr e, w') =>
                (setIsProcessing false
                   (if isGeminiQuotaError e then
                      setProcessingMsg "Cota de IA excedida."
                        (setQuotaCooldown (now w' + 60000) s0)
                    else setProcessingMsg "Falha ao remover fundo." s0), w')
            end
      end
  end.

End AiHandlers.

(** ** Upload and selection handlers (App.tsx) *)

Definition setViewImageId (v : option string) (s : AppState) : AppState :=
  mkAppState (images s) v (selectedImageIds s) (isProcessing s)
             (processingMsg s) (quotaCooldown s) (isDetectingPrivacyRef s).

Definition setSelectedImageIds (sel : gset string) (s : AppState) : AppState :=
  mkAppState (images s) (viewImageId s) sel (isProcessing s)
             (processingMsg s) (quotaCooldown s) (isDetectingPrivacyRef s).

(** One chosen file together with what the browser made for it:
    [crypto.randomUUID()] and the two [URL.createObjectURL] results. *)
Record Upload : Type := mkUpload {
  upload_id : string;
  upload_originalUrl : string;
  upload_previewUrl : string;
  upload_name : string;
  upload_type : string
}.

Definition newImage (defaultConfig : Adjustments) (u : Upload) : ImageFile :=
  mkImageFile (upload_id u) (upload_originalUrl u) (upload_previewUrl u)
              (upload_name u) (upload_type u) defaultConfig None.

Definition handleFileUpload (defaultConfig : Adjustments) (files : list Upload)
           (s : AppState) : AppState :=
  match files with
  | [] => s
  | first :: _ =>
      setSelectedImageIds {[upload_id first]}
        (setViewImageId (Some (upload_id first))
           (setImages (fun prev => prev ++ map (newImage defaultConfig) files) s))
  end.

Definition toggleSelection (id_ : string) (multi : bool) (s : AppState) : AppState :=
  let newSet := if multi then selectedImageIds s else ∅ in
  setSelectedImageIds
    (if has newSet id_ then newSet ∖ {[id_]} else newSet ∪ {[id_]}) s.

Definition selectAll (s : AppState) : AppState :=
  if Nat.eqb (size (selectedImageIds s)) (length (images s))
  then setSelectedImageIds ∅ s
  else setSelectedImageIds (list_to_set (ids (images s))) s.

Definition handleThumbnailClick (id_ : string) (s : AppState) : AppState :=
  let s1 := setViewImageId (Some id_) s in
  if (size (selectedImageIds s) <=? 1)%nat && negb (has (selectedImageIds s) id_)
  then setSelectedImageIds {[id_]} s1
  else s1.

(** [confirmed] is the answer to the [confirm] dialog. *)
Definition clearAllPhotos (confirmed : bool) (s : AppState) : AppState :=
  if confirmed
  then setSelectedImageIds ∅ (setViewImageId None (setImages (fun _ => []) s))
  else s.

(** ** Toolbar edits and filters (Toolbar.tsx, constants.ts, App.tsx) *)

(** [viewedImage ? viewedImage.adjustments : defaultConfig] *)
Definition currentToolbarAdjustments (defaultConfig : Adjustments) (s : AppState)
  : Adjustments :=
  match viewedImage s with
  | Some viewed => adjustments viewed
  | None => defaultConfig
  end.

(** A key of [Adjustments] with a value of its type. *)
Inductive KeyValue : Type :=
| KBrightness (v : Q) | KContrast (v : Q) | KSaturation (v : Q) | KBlur (v : Q)
| KSepia (v : Q) | KGrayscale (v : Q) | KWarmth (v : Q)
| KWatermark (v : string) | KOverlayImage (v : option string)
| KOverlayX (v : Q) | KOverlayY (v : Q) | KOverlayScale (v : Q)
| KOverlayOpacity (v : Q) | KPrivacyBlur (v : bool).

(** [{ ...adjustments, [key]: value }] *)
Definition update (a : Adjustments) (kv : KeyValue) : Adjustments :=
  mkAdjustments
    (match kv with KBrightness v => v | _ => brightness a end)
    (match kv with KContrast v => v | _ => contrast a end)
    (match kv with KSaturation v => v | _ => saturation a end)
    (match kv with KBlur v => v | _ => blur a end)
    (match kv with KSepia v => v | _ => sepia a end)
    (match kv with KGrayscale v => v | _ => grayscale a end)
    (match kv with KWarmth v => v | _ => warmth a end)
    (match kv with KWatermark v => v | _ => watermark a end)
    (match kv with KOverlayImage v => v | _ => overlayImage a end)
    (match kv with KOverlayX v => v | _ => overlayX a end)
    (match kv with KOverlayY v => v | _ => overlayY a end)
    (match kv with KOverlayScale v => v | _ => overlayScale a end)
    (match kv with KOverlayOpacity v => Some v | _ => overlayOpacity a end)
    (match kv with KPrivacyBlur v => v | _ => privacyBlur a end).

(** A control of the toolbar changing one key: the toolbar shows
    [currentToolbarAdjustments] and hands the updated copy to
    [updateAdjustments]. *)
Definition toolbarUpdate (defaultConfig : Adjustments) (kv : KeyValue)
           (s : AppState) : AppState :=
  updateAdjustments (update (currentToolbarAdjustments defaultConfig s) kv) s.






(** ** Saved configurations (App.tsx) *)

Record UserConfig : Type := mkUserConfig {
  config_id : string;
  config_name : string;
  config_createdAt : Z;
  config_adjustments : Adjustments
}.

(** The list held in React state and the list last written to
    [localStorage] under 'lumina_user_configs' ([None]: never written). *)
Record ConfigStore : Type := mkConfigStore {
  userConfigs : list UserConfig;
  storedUserConfigs : option (list UserConfig)
}.

Definition doubleQuote : Ascii.ascii :=
  Ascii.Ascii false true false false false true false false.

(** [uuid] is [crypto.randomUUID()], [createdAt] is [Date.now()]. *)
Definition handleSaveUserConfig (name_ uuid : string) (createdAt : Z)
           (s : AppState) (c : ConfigStore) : AppState * ConfigStore :=
  match viewedImage s with
  | None => (s, c)
  | Some viewed =>
      let updatedConfigs :=
        mkUserConfig uuid name_ createdAt (adjustments viewed) :: userConfigs c in
      (setProcessingMsg
         ("Configuração " +:+ String doubleQuote name_
          +:+ String doubleQuote " salva!") s,
       mkConfigStore updatedConfigs (Some updatedConfigs))
  end.

Definition handleDeleteUserConfig (id_ : string) (c : ConfigStore) : ConfigStore :=
  let updated :=
    List.filter (fun cfg => negb (String.eqb (config_id cfg) id_)) (userConfigs c) in
  mkConfigStore updated (Some updated).

(** The list the initialization effect installs on the next start: the
    stored item parsed back, or the initial empty list when the key was
    never written.  [JSON.parse(JSON.stringify(l))] is taken to give [l]
    back. *)
Definition loadUserConfigs (c : ConfigStore) : list UserConfig :=
  match storedUserConfigs c with
  | Some saved => saved
  | None => []
  end.

Definition handleLoadUserConfig (config : UserConfig) (s : AppState) : AppState :=
  setProcessingMsg
    ("Configuração " +:+ String doubleQuote (config_name config)
     +:+ String doubleQuote " aplicada!")
    (updateAdjustments (config_adjustments config) s).

(** ** Dragging the overlay (CanvasPreview.tsx) *)

Local Open Scope Q_scope.

(** [Math.min(a, b)] *)
Definition mathMin (a b : Q) : Q := if Qle_bool a b then a else b.

Inductive InteractionMode : Type := ModeNone | ModeMove | ModeResize.

(** [getBoundingClientRect()] of the container. *)
Record Rect : Type := mkRect {
  rect_left : Q;
  rect_top : Q;
  rect_width : Q;
  rect_height : Q
}.

(** The argument of [onOverlayUpdate]. *)
Inductive OverlayUpdate : Type :=
| MoveTo (overlayX_ overlayY_ : Q)
| ScaleTo (overlayScale_ : Q).

(** [handleMove]; [container] is [containerRef.current] with its
    rectangle, [startY] and [startScale] are [startPos.y] and
    [startVal.scale].  [None]: the handler returns without an update. *)
Definition handleMove (interactionMode : InteractionMode)
           (container : option Rect) (adjustmentsPresent : bool)
           (clientX clientY startY startScale : Q) : option OverlayUpdate :=
  match interactionMode, container, adjustmentsPresent with
  | ModeNone, _, _ => None
  | _, None, _ => None
  | _, _, false => None
  | ModeMove, Some rect, true =>
      let x := (clientX - rect_left rect) / rect_width rect in
      let y := (clientY - rect_top rect) / rect_height rect in
      Some (MoveTo (mathMax 0 (mathMin 1 x)) (mathMax 0 (mathMin 1 y)))
  | ModeResize, Some rect, true =>
      let deltaY := clientY - startY in
      let directionCorrectedScaleChange := deltaY / 300 in
      let newScale := startScale + directionCorrectedScaleChange in
      Some (ScaleTo (mathMax (5 # 100) (mathMin 2 newScale)))
  end.

(** [{ ...viewedImage.adjustments, ...updates }] *)
Definition applyOverlayUpdate (a : Adjustments) (u : OverlayUpdate) : Adjustments :=
  match u with
  | MoveTo x y => update (update a (KOverlayX x)) (KOverlayY y)
  | ScaleTo sc => update a (KOverlayScale sc)
  end.

(** The [onOverlayUpdate] callback that [App] hands to the preview. *)
Definition onOverlayUpdate (updates : OverlayUpdate) (s : AppState) : AppState :=
  match viewedImage s with
  | Some viewed => updateAdjustments (applyOverlayUpdate (adjustments viewed) updates) s
  | None => s
  end.

Local Close Scope Q_scope.

(** ** Privacy indicators of the preview (CanvasPreview.tsx) *)

(** The redaction rectangles drawn over the preview. *)
Definition previewBoxes (image : ImageFile) : list BoundingBox :=
  if privacyBlur (adjustments image)
  then default [] (privacyRegions image)
  else [].

(** Whether the "Analisando rostos e placas..." indicator is shown. *)
Definition previewAnalysing (image : ImageFile) : bool :=
  privacyBlur (adjustments image)
  && negb (bool_decide (is_Some (privacyRegions image))).

(** [isPrivacyScanClean]: whether the "Varredura: Seguro" indicator is
    shown. *)
Definition isPrivacyScanClean (image : ImageFile) : bool :=
  privacyBlur (adjustments image)
  && match privacyRegions image with
     | Some regions => Nat.eqb (length regions) 0
     | None => false
     end.

(** ** Further scenarios *)

Module Scenario2.

(** A keyed service whose suggestion requests all fail with status 429. *)
Definition key : option string := Some "test-key".

Definition quotaSuggestion (base64 : string) : Op nat (option ParsedSuggestion) :=
  Scenario.alwaysQuota.
Definition quotaBoxes (base64 : string) : Op nat (list BoundingBox) :=
  Scenario.alwaysQuota.

(** The model answers with JSON that has no numeric field at all. *)
Definition emptyAnswer (base64 : string) : Op nat (option ParsedSuggestion) :=
  fun n => (inl (Some (mkParsedSuggestion None None None None)), S n, 200%N).

(** The model answers with the cut-out "QUJD". *)
Definition cutout (base64 : option string) : Op nat (option string) :=
  fun n => (inl (Some "QUJD"), S n, 200%N).

Definition fetchOk (url : string) : Op nat string :=
  fun n => (inl url, n, 10%N).

(** Two selected images; "a" is viewed and carries a logo, "b" has a
    watermark text of its own. *)
Definition withLogo : Adjustments :=
  withOverlayImage (Some "data:image/png;base64,TE9HTw==") Scenario.DEFAULT_ADJUSTMENTS.
Definition imgA : ImageFile := Scenario.photo "a" withLogo None.
Definition imgB : ImageFile :=
  Scenario.photo "b" (Scenario.withWatermark "mine" Scenario.DEFAULT_ADJUSTMENTS) None.
Definition pair : AppState := Scenario.app [imgA; imgB] (Some "a") {["a"; "b"]}.

End Scenario2.

(** ** Vocabulary for the redaction *)


(** ** Upload scenario *)

Module Scenario3.

Definition fileA : Upload := mkUpload "id-a" "blob:a1" "blob:a2" "a.jpg" "image/jpeg".
Definition fileB : Upload := mkUpload "id-b" "blob:b1" "blob:b2" "b.jpg" "image/jpeg".
Definition empty : AppState := Scenario.app [] None ∅.
(** Three images of which "u" and "x" are selected and "u" is viewed. *)
Definition multi : AppState :=
  Scenario.app [Scenario.imgU; Scenario.imgX; Scenario.imgY] (Some "u") {["u"; "x"]}.

End Scenario3.

(** ** Vocabulary for the selection *)

(** Every selected id and the viewed id, when set, name an image of the
    list. *)
Definition selectionWithinImages (s : AppState) : Prop :=
  (forall x, x ∈ selectedImageIds s -> x ∈ ids (images s)) /\
  (forall v, viewImageId s = Some v -> v ∈ ids (images s)).

(** * Properties *)

(** Closed decidable facts are settled by evaluating their decision
    procedure. *)
Ltac by_evaluation :=
  match goal with
  | |- ?P =>
      let H := constr:(proj1 (bool_decide_eq_true P)) in
      apply H; vm_compute; reflexivity
  end.

(** ** Sanity checks of the embedding *)

Example isRateLimit_status : isRateLimit Scenario.resourceExhausted = true.
Proof. reflexivity. Qed.

Example isRateLimit_message :
  isRateLimit (OtherError "Error" None None (Some "Quota exceeded for model"))
  = true.
Proof. reflexivity. Qed.

Example isRateLimit_other : isRateLimit Scenario.badRequest = false.
Proof. reflexivity. Qed.

(** The quota error's own message contains "429". *)
Example isRateLimit_quota_error : isRateLimit GeminiQuotaError = true.
Proof. reflexivity. Qed.

Example cooldownRemaining_just_tripped : cooldownRemaining 61000 1000 = 60.
Proof. reflexivity. Qed.

Example cooldownRemaining_rounds_up : cooldownRemaining 61000 1001 = 60.
Proof. reflexivity. Qed.

Example detectionQueue_gallery :
  ids (detectionQueue Scenario.gallery) = ["z"; "u"; "x"; "y"].
Proof. vm_compute. reflexivity. Qed.

Example regionRect_face :
  regionRect 800 600 Scenario.face = (160, 60, 160, 120).
Proof. reflexivity. Qed.

(** ** ResilientInvoker: retryWithBackoff *)

(** The function satisfies the equation its source text reads as. *)
Lemma retryWithBackoff_eq {St T} (fn : Op St T) (retries delay : Z) (w : World St) :
  retryWithBackoff fn retries delay w =
  match perform EvRemote fn w with
  | (inl v, w1) => (inl v, w1)
  | (inr error, w1) =>
      if isRateLimit error then
        if decide (0 < retries)
        then retryWithBackoff fn (retries - 1) (delay * 2) (wait delay w1)
        else (inr GeminiQuotaError, w1)
      else (inr error, w1)
  end.
Proof.
  simp retryWithBackoff.
  destruct (perform EvRemote fn w) as [[v|error] w1]; simpl; [reflexivity|].
  destruct (isRateLimit error); simpl; [|reflexivity].
  destruct (decide (0 < retries)); reflexivity.
Qed.

Lemma append_cons (c : Ascii.ascii) (a post : string) :
  String c a +:+ post = String c (a +:+ post).
Proof. reflexivity. Qed.

Lemma prefix_spec (a b : string) :
  String.prefix a b = true <-> exists post, b = a +:+ post.
Proof.
  revert b; induction a as [|c a IH]; intros b; simpl.
  - split; [intros _; exists b; reflexivity | intros _; by destruct b].
  - destruct b as [|c' b].
    + split; [discriminate | intros [post Hp]; discriminate].
    + simpl. destruct (Ascii.ascii_dec c c') as [->|Hne].
      * rewrite IH. split; intros [post Hp]; exists post;
          rewrite append_cons in *; congruence.
      * split; [discriminate|].
        intros [post Hp]; rewrite append_cons in Hp; congruence.
Qed.

(** [includes] is the substring test. *)
Lemma includes_spec (needle hay : string) :
  includes needle hay = true <-> exists pre post, hay = pre +:+ needle +:+ post.
Proof.
  induction hay as [|c hay IH].
  - change (includes needle "") with (String.prefix needle "" || false).
    rewrite orb_false_r, prefix_spec. split.
    + intros [post Hp]. exists "", post. exact Hp.
    + intros [[|c pre] [post Hp]]; [exists post; exact Hp | discriminate].
  - change (includes needle (String c hay))
      with (String.prefix needle (String c hay) || includes needle hay).
    rewrite orb_true_iff, prefix_spec, IH. split.
    + intros [[post Hp] | (pre & post & Hp)].
      * exists "", post. exact Hp.
      * exists (String c pre), post. rewrite append_cons. congruence.
    + intros ([|c' pre] & post & Hp).
      * left. exists post. exact Hp.
      * right. exists pre, post. rewrite append_cons in Hp. congruence.
Qed.

Lemma guarded_includes (k m : string) :
  k <> "" -> negb (String.eqb m "") && includes k m = includes k m.
Proof.
  intros Hk. destruct m as [|c m]; [|reflexivity].
  destruct k as [|c k]; [congruence | reflexivity].
Qed.

Lemma isRateLimit_spec (e : JsError) : isRateLimit e = true <-> QuotaClassified e.
Proof.
  unfold isRateLimit, QuotaClassified, message_includes.
  rewrite !orb_true_iff, !bool_decide_eq_true.
  destruct (err_message e) as [m|].
  - rewrite !guarded_includes by discriminate. split.
    + intros [[[?|?]|?]|?]; eauto 6.
    + intros [?|[?|(m' & Hm & Hin)]]; [tauto | tauto |].
      injection Hm as <-. tauto.
  - split.
    + intros [[[?|?]|?]|?]; try discriminate; tauto.
    + intros [?|[?|(m & Hm & _)]]; [tauto | tauto | discriminate].
Qed.

(** C1. An operation whose every call fails with a quota-classified error
    is attempted exactly three times by [retryWithBackoff] with its default
    arguments, with a 2000 ms wait before the second attempt and a 4000 ms
    wait before the third, and the result is [GeminiQuotaError]; a failure
    that is not quota-classified is returned as it is after that single
    call, without any wait, whatever the retry budget. *)
Theorem retryWithBackoff_three_attempts_then_quota_error
        {St T} (fn : Op St T) (w : World St) :
  ((forall st, exists e st' d, fn st = (inr e, st', d) /\ QuotaClassified e) ->
   exists w', retryWithBackoff fn 2 2000 w = (inr GeminiQuotaError, w') /\
              trace w' = trace w ++ [EvRemote; EvWait 2000; EvRemote;
                                     EvWait 4000; EvRemote])
  /\
  (forall retries delay e st' d,
      fn (remote w) = (inr e, st', d) -> ~ QuotaClassified e ->
      retryWithBackoff fn retries delay w =
      (inr e, mkWorld st' (now w + Z.of_N d) (trace w ++ [EvRemote]))).
Proof.
  split.
  - intros Hfail.
    assert (Hstep : forall w0, exists e w1,
               perform EvRemote fn w0 = (inr e, w1) /\ isRateLimit e = true /\
               trace w1 = trace w0 ++ [EvRemote]).
    { intros w0. destruct (Hfail (remote w0)) as (e & st' & d & Hfn & Hq).
      unfold perform. rewrite Hfn. eexists _, _. split; [reflexivity|].
      split; [by apply isRateLimit_spec | reflexivity]. }
    destruct (Hstep w) as (e1 & w1 & H1 & Hq1 & Ht1).
    destruct (Hstep (wait 2000 w1)) as (e2 & w2 & H2 & Hq2 & Ht2).
    destruct (Hstep (wait (2000 * 2) w2)) as (e3 & w3 & H3 & Hq3 & Ht3).
    exists w3. split.
    + rewrite retryWithBackoff_eq, H1, Hq1. simpl.
      rewrite retryWithBackoff_eq, H2, Hq2. simpl.
      rewrite retryWithBackoff_eq, H3, Hq3. reflexivity.
    + rewrite Ht3. simpl. rewrite Ht2. simpl. rewrite Ht1.
      rewrite <- !app_assoc. reflexivity.
  - intros retries delay e st' d Hfn Hnq.
    rewrite retryWithBackoff_eq. unfold perform. rewrite Hfn.
    destruct (isRateLimit e) eqn:Hq; [|reflexivity].
    exfalso. apply Hnq. by apply isRateLimit_spec.
Qed.

Lemma retryWithBackoff_three_attempts_witness :
  (exists w', retryWithBackoff (T := unit) Scenario.alwaysQuota 2 2000 Scenario.w0
              = (inr GeminiQuotaError, w') /\
              trace w' = [EvRemote; EvWait 2000; EvRemote; EvWait 4000; EvRemote])
  /\ retryWithBackoff (T := unit) Scenario.alwaysBadRequest 2 2000 Scenario.w0
     = (inr Scenario.badRequest, mkWorld 1%nat 1005 [EvRemote]).
Proof.
  split.
  - apply (proj1 (retryWithBackoff_three_attempts_then_quota_error
                    Scenario.alwaysQuota Scenario.w0)).
    intros st. exists Scenario.resourceExhausted, (S st), 5%N.
    split; [reflexivity | left; reflexivity].
  - apply (proj2 (retryWithBackoff_three_attempts_then_quota_error
                    Scenario.alwaysBadRequest Scenario.w0)
                 2 2000 Scenario.badRequest 1%nat 5%N eq_refl).
    intros [H|[H|(m & Hm & [H|H])]]; try discriminate H;
      injection Hm as <-; vm_compute in H; discriminate H.
Defined.

(** ** Per-image state: updateAdjustments *)

Lemma lookup_map {A B} (f : A -> B) (l : list A) (k : nat) :
  map f l !! k = f <$> (l !! k).
Proof. apply (list_lookup_fmap f l k). Qed.

(** C9. An adjustment update keeps the list of images in place and, for
    every image, keeps id, source URL, name, type and detected regions;
    selected images receive the new adjustments and all other images are
    returned as they were.  Hence a stored detection result, empty or not,
    survives every toggle of privacy blur. *)
Theorem updateAdjustments_only_replaces_adjustments
        (newAdj : Adjustments) (s : AppState) (k : nat) (img : ImageFile) :
  images s !! k = Some img ->
  length (images (updateAdjustments newAdj s)) = length (images s) /\
  exists img',
    images (updateAdjustments newAdj s) !! k = Some img' /\
    id img' = id img /\ originalUrl img' = originalUrl img /\
    name img' = name img /\ type img' = type img /\
    privacyRegions img' = privacyRegions img /\
    (id img ∈ selectedImageIds s -> adjustments img' = newAdj) /\
    (id img ∉ selectedImageIds s -> img' = img).
Proof.
  intros Hk. unfold updateAdjustments, setImages; simpl. split.
  - apply length_map.
  - rewrite lookup_map, Hk; simpl. eexists; split; [reflexivity|].
    unfold has. case_bool_decide; simpl; repeat split; auto; tauto.
Qed.

Lemma updateAdjustments_keeps_scan_witness :
  exists img',
    images (updateAdjustments Scenario.DEFAULT_ADJUSTMENTS Scenario.mixed) !! 1%nat
      = Some img' /\
    privacyRegions img' = Some [] /\
    adjustments img' = Scenario.DEFAULT_ADJUSTMENTS.
Proof.
  destruct (updateAdjustments_only_replaces_adjustments
              Scenario.DEFAULT_ADJUSTMENTS Scenario.mixed 1 Scenario.imgB eq_refl)
    as (_ & img' & Hk & _ & _ & _ & _ & Hreg & Hsel & _).
  exists img'. split; [exact Hk|]. split; [exact Hreg|].
  apply Hsel. by_evaluation.
Defined.

(** ** PrivacyDetectionScheduler: candidate selection *)

Lemma needsDetection_elem (s : AppState) (img : ImageFile) :
  img ∈ needsDetection s <->
  img ∈ images s /\ id img ∈ selectedImageIds s /\
  privacyBlur (adjustments img) = true /\ privacyRegions img = None.
Proof.
  unfold needsDetection, has. rewrite list_elem_of_filter.
  rewrite !andb_True, negb_True, !bool_decide_spec, Is_true_true.
  rewrite <- eq_None_not_Some. tauto.
Qed.

(** An image that is not selected is not a candidate, even with privacy
    blur on and no region state: the last clause of C2 as it is worded
    (absent state and privacy blur on suffice) fails on image "a". *)
Lemma unselected_absent_image_not_candidate :
  Scenario.imgA ∈ images Scenario.mixed /\
  privacyBlur (adjustments Scenario.imgA) = true /\
  privacyRegions Scenario.imgA = None /\
  Scenario.imgA ∉ needsDetection Scenario.mixed.
Proof.
  split; [left|]. split; [reflexivity|]. split; [reflexivity|].
  rewrite needsDetection_elem. intros (_ & Hsel & _).
  assert (Hno : id Scenario.imgA ∉ selectedImageIds Scenario.mixed)
    by by_evaluation.
  exact (Hno Hsel).
Qed.

(** C2 (amended). The candidates are exactly the images that are selected,
    have privacy blur on and have no region state, in the order of the
    image list; an image with an empty region set is never a candidate,
    and a selected image with privacy blur on and no region state always
    is. *)
Theorem needsDetection_exactly_selected_blur_absent
        (s : AppState) (img : ImageFile) :
  (img ∈ needsDetection s <->
   img ∈ images s /\ id img ∈ selectedImageIds s /\
   privacyBlur (adjustments img) = true /\ privacyRegions img = None)
  /\ (needsDetection s `sublist_of` images s)
  /\ (privacyRegions img = Some [] -> img ∉ needsDetection s)
  /\ (img ∈ images s -> id img ∈ selectedImageIds s ->
      privacyBlur (adjustments img) = true -> privacyRegions img = None ->
      img ∈ needsDetection s).
Proof.
  split; [apply needsDetection_elem|].
  split; [apply sublist_filter|].
  split.
  - intros Hempty Hin. apply needsDetection_elem in Hin.
    destruct Hin as (_ & _ & _ & Habs). congruence.
  - intros. apply needsDetection_elem. tauto.
Qed.

Lemma needsDetection_witness :
  (Scenario.imgB ∉ needsDetection Scenario.mixed) /\
  Scenario.imgC ∈ needsDetection Scenario.mixed.
Proof.
  split.
  - apply (proj1 (proj2 (proj2 (needsDetection_exactly_selected_blur_absent
                                  Scenario.mixed Scenario.imgB)))).
    reflexivity.
  - apply (proj2 (proj2 (proj2 (needsDetection_exactly_selected_blur_absent
                                  Scenario.mixed Scenario.imgC)))).
    + apply list_elem_of_In; simpl; tauto.
    + by_evaluation.
    + reflexivity.
    + reflexivity.
Defined.

(** ** QuotaCircuitBreaker *)

Lemma cooldownRemaining_div (cd t : Z) :
  cooldownRemaining cd t = - ((t - cd) / 1000).
Proof.
  unfold cooldownRemaining, Qceiling, Qfloor. simpl.
  f_equal. f_equal. lia.
Qed.

(** [cooldownRemaining] is the ceiling of the quotient. *)
Lemma cooldownRemaining_ceiling (cd t : Z) :
  1000 * (cooldownRemaining cd t - 1) < cd - t <= 1000 * cooldownRemaining cd t.
Proof.
  rewrite cooldownRemaining_div.
  pose proof (Z.div_mod (t - cd) 1000 ltac:(lia)).
  pose proof (Z.mod_pos_bound (t - cd) 1000 ltac:(lia)).
  lia.
Qed.

(** One and a half seconds after expiry the computed remaining value is
    -1, not 0. *)
Lemma cooldownRemaining_negative_after_expiry :
  60000 <= 61500 /\ cooldownRemaining 60000 61500 = -1.
Proof. split; [lia | reflexivity]. Qed.

(** C7 (amended). While the breaker is open the badge shows the ceiling of
    (cooldown - now)/1000, which is at least 1.  From the instant the
    cooldown is reached the breaker reads as closed and the badge is not
    rendered; the computed value is the same ceiling, which is then at most
    0 and is not clamped.  The interval callback resets the stored
    timestamp to 0 once the cooldown lies in the past. *)
Theorem cooldown_open_shows_ceiling_closed_after_expiry
        (s : AppState) (t : Z) :
  let cd := quotaCooldown s in
  let r := cooldownRemaining cd t in
  1000 * (r - 1) < cd - t <= 1000 * r /\
  (t < cd ->
   isQuotaExhausted cd t = true /\ cooldownBadge cd t = Some r /\ 1 <= r) /\
  (cd <= t ->
   isQuotaExhausted cd t = false /\ cooldownBadge cd t = None /\ r <= 0) /\
  (0 < cd -> cd < t -> quotaCooldown (cooldownTick t s) = 0).
Proof.
  intros cd r. pose proof (cooldownRemaining_ceiling cd t) as Hc. fold r in Hc.
  split; [exact Hc|]. unfold cooldownBadge, isQuotaExhausted. fold r.
  split; [|split].
  - intros Hlt. apply Z.ltb_lt in Hlt as Hb. rewrite Hb.
    repeat split. lia.
  - intros Hle. apply Z.ltb_ge in Hle as Hb. rewrite Hb.
    repeat split. lia.
  - intros Hpos Hlt. unfold cooldownTick. fold cd.
    apply Z.ltb_lt in Hpos as ->. apply Z.ltb_lt in Hlt as ->. reflexivity.
Qed.

Lemma cooldown_witness :
  (cooldownBadge 60000 500 = Some 60) /\
  (cooldownBadge 60000 60000 = None) /\
  quotaCooldown (cooldownTick 61500 (setQuotaCooldown 60000 Scenario.mixed)) = 0.
Proof.
  pose proof (cooldown_open_shows_ceiling_closed_after_expiry
                (setQuotaCooldown 60000 Scenario.mixed)) as H.
  split; [|split].
  - destruct (H 500) as (_ & Hopen & _).
    destruct (Hopen ltac:(simpl; lia)) as (_ & Hb & _). exact Hb.
  - destruct (H 60000) as (_ & _ & Hclosed & _).
    destruct (Hclosed ltac:(simpl; lia)) as (_ & Hb & _). exact Hb.
  - destruct (H 61500) as (_ & _ & _ & Htick).
    apply Htick; simpl; lia.
Defined.

(** ** The world only moves forward *)

Section Monotone.
Context {St : Type}.
Implicit Types w : World St.

Lemma extends_refl w : extends w w.
Proof. split; [lia | reflexivity]. Qed.

Lemma extends_trans w1 w2 w3 : extends w1 w2 -> extends w2 w3 -> extends w1 w3.
Proof. intros [? ?] [? ?]. split; [lia | by etrans]. Qed.

Lemma perform_trace {T} ev (fn : Op St T) w r w' :
  perform ev fn w = (r, w') ->
  trace w' = trace w ++ [ev] /\ now w <= now w'.
Proof.
  unfold perform. destruct (fn (remote w)) as [[r0 st'] d].
  intros [= <- <-]. simpl. split; [reflexivity | lia].
Qed.

Lemma perform_extends {T} ev (fn : Op St T) w r w' :
  perform ev fn w = (r, w') -> extends w w'.
Proof.
  intros H. apply perform_trace in H as [Ht Hn]. split; [exact Hn|].
  rewrite Ht. by apply prefix_app_r.
Qed.

Lemma wait_extends ms w : extends w (wait ms w).
Proof. split; simpl; [lia | by apply prefix_app_r]. Qed.

Lemma retryWithBackoff_extends {T} (fn : Op St T) (n : nat) :
  forall retries delay w r w',
    (Z.to_nat retries <= n)%nat ->
    retryWithBackoff fn retries delay w = (r, w') -> extends w w'.
Proof.
  induction n as [|n IH]; intros retries delay w r w' Hn;
    rewrite retryWithBackoff_eq;
    destruct (perform EvRemote fn w) as [[v|e] w1] eqn:Hp;
    apply perform_extends in Hp;
    try (intros [= <- <-]; exact Hp);
    destruct (isRateLimit e); try (intros [= <- <-]; exact Hp);
    destruct (decide (0 < retries)); try (intros [= <- <-]; exact Hp).
  - lia.
  - intros Hrec. apply IH in Hrec; [|lia].
    eapply extends_trans; [exact Hp|].
    eapply extends_trans; [apply wait_extends | exact Hrec].
Qed.

Variable API_KEY : option string.
Variable requestBoxes : string -> Op St (list BoundingBox).
Variable fetchBase64 : string -> Op St string.

Lemma detectPrivacyObjects_extends base64 w r w' :
  detectPrivacyObjects API_KEY requestBoxes base64 w = (r, w') -> extends w w'.
Proof.
  unfold detectPrivacyObjects. destruct (negb (getAiClient API_KEY)).
  - intros [= <- <-]. apply extends_refl.
  - destruct (retryWithBackoff _ _ _ _) as [[boxes|e] w1] eqn:Hr;
      apply (retryWithBackoff_extends _ _ _ _ _ _ _ (le_n _)) in Hr.
    + intros [= <- <-]. exact Hr.
    + destruct (isGeminiQuotaError e); intros [= <- <-]; exact Hr.
Qed.

(** Processing a candidate starts with the fetch of its source. *)
Lemma detectFor_extends img w r w' :
  detectFor API_KEY requestBoxes fetchBase64 img w = (r, w') ->
  extends w w' /\ trace w ++ [EvFetch (originalUrl img)] `prefix_of` trace w'.
Proof.
  unfold detectFor.
  destruct (perform _ _ w) as [[b64|e] w1] eqn:Hp;
    pose proof (perform_extends _ _ _ _ _ Hp) as He;
    apply perform_trace in Hp as [Ht _].
  - intros Hd. apply detectPrivacyObjects_extends in Hd.
    split; [by eapply extends_trans|].
    rewrite <- Ht. apply Hd.
  - intros [= <- <-]. split; [exact He|]. by rewrite Ht.
Qed.

End Monotone.

(** ** PrivacyDetectionScheduler: the processing loop *)

Lemma ids_fmap (l : list ImageFile) : ids l = id <$> l.
Proof. reflexivity. Qed.

Lemma elem_of_ids (i : ImageFile) (l : list ImageFile) : i ∈ l -> id i ∈ ids l.
Proof. rewrite ids_fmap. apply list_elem_of_fmap_2. Qed.

(** With unique ids an image of the list is determined by its id. *)
Lemma NoDup_ids_inj (l : list ImageFile) (x y : ImageFile) :
  NoDup (ids l) -> x ∈ l -> y ∈ l -> id x = id y -> x = y.
Proof.
  induction l as [|a l IH]; [by intros _ ?%elem_of_nil|].
  unfold ids; simpl; fold (ids l). rewrite NoDup_cons. intros [Ha Hl].
  rewrite !elem_of_cons. intros [->|Hx] [->|Hy] Heq; auto.
  - exfalso. apply Ha. rewrite Heq. by apply elem_of_ids.
  - exfalso. apply Ha. rewrite <- Heq. by apply elem_of_ids.
Qed.

Lemma ids_sublist (l k : list ImageFile) : l `sublist_of` k -> ids l `sublist_of` ids k.
Proof. rewrite !ids_fmap. apply fmap_sublist. Qed.

Lemma storeRegions_images (t : string) (bs : list BoundingBox) (s : AppState) :
  images (storeRegions t bs s) =
  map (fun i => if String.eqb (id i) t then withRegions bs i else i) (images s).
Proof. reflexivity. Qed.

Lemma storeRegions_ids (t : string) (bs : list BoundingBox) (s : AppState) :
  ids (images (storeRegions t bs s)) = ids (images s).
Proof.
  rewrite storeRegions_images. unfold ids. rewrite map_map.
  apply map_ext. intros i. by destruct (String.eqb (id i) t).
Qed.

Lemma storeRegions_other (t : string) (bs : list BoundingBox) (s : AppState)
      (i : ImageFile) :
  i ∈ images s -> id i <> t -> i ∈ images (storeRegions t bs s).
Proof.
  intros Hin Hne. rewrite storeRegions_images.
  apply list_elem_of_In, in_map_iff. exists i.
  split; [|by apply list_elem_of_In].
  destruct (String.eqb_spec (id i) t); [contradiction | reflexivity].
Qed.

Lemma storeRegions_target (t : string) (bs : list BoundingBox) (s : AppState)
      (i : ImageFile) :
  i ∈ images s -> id i = t -> withRegions bs i ∈ images (storeRegions t bs s).
Proof.
  intros Hin Heq. rewrite storeRegions_images.
  apply list_elem_of_In, in_map_iff. exists i.
  split; [|by apply list_elem_of_In].
  destruct (String.eqb_spec (id i) t); [reflexivity | contradiction].
Qed.

(** *** The queue *)

Lemma isViewed_true (s : AppState) (i : ImageFile) :
  isViewed s i = true <-> viewImageId s = Some (id i).
Proof. unfold isViewed. rewrite bool_decide_eq_true. split; congruence. Qed.

Lemma needsDetection_NoDup (s : AppState) :
  NoDup (ids (images s)) -> NoDup (ids (needsDetection s)).
Proof.
  intros H. eapply sublist_NoDup; [exact H|].
  apply ids_sublist. apply sublist_filter.
Qed.

(** With the viewed image among the candidates, the queue is that image
    followed by the other candidates in their order. *)
Lemma detectionQueue_viewed (s : AppState) (v : ImageFile) :
  NoDup (ids (images s)) ->
  v ∈ needsDetection s -> viewImageId s = Some (id v) ->
  detectionQueue s = v :: filter (fun i => id i <> id v) (needsDetection s).
Proof.
  intros Hnd Hv Hview. unfold detectionQueue.
  destruct (find (isViewed s) (needsDetection s)) as [p|] eqn:Hfind.
  - apply find_some in Hfind as [Hp Hpv].
    apply list_elem_of_In in Hp. apply isViewed_true in Hpv.
    assert (p = v) as ->.
    { apply (NoDup_ids_inj (needsDetection s));
        [by apply needsDetection_NoDup | done | done | congruence]. }
    f_equal. apply list_filter_iff. intros i.
    rewrite negb_True, Is_true_true, isViewed_true, Hview. split; congruence.
  - exfalso. apply list_elem_of_In in Hv.
    pose proof (find_none _ _ Hfind v Hv) as Hf.
    apply isViewed_true in Hview. congruence.
Qed.

Lemma detectionQueue_not_viewed (s : AppState) :
  (forall v, v ∈ needsDetection s -> viewImageId s <> Some (id v)) ->
  detectionQueue s = needsDetection s.
Proof.
  intros Hno. unfold detectionQueue.
  destruct (find (isViewed s) (needsDetection s)) as [p|] eqn:Hfind; [|reflexivity].
  apply find_some in Hfind as [Hp Hpv].
  apply list_elem_of_In in Hp. apply isViewed_true in Hpv.
  by destruct (Hno p Hp).
Qed.

Lemma detectionQueue_elem (s : AppState) (i : ImageFile) :
  i ∈ detectionQueue s -> i ∈ needsDetection s.
Proof.
  unfold detectionQueue.
  destruct (find (isViewed s) (needsDetection s)) as [p|] eqn:Hfind; [|done].
  apply find_some in Hfind as [Hp _]. apply list_elem_of_In in Hp.
  rewrite elem_of_cons, list_elem_of_filter. intros [->|[_ ?]]; done.
Qed.

Lemma detectionQueue_NoDup (s : AppState) :
  NoDup (ids (images s)) -> NoDup (ids (detectionQueue s)).
Proof.
  intros Hnd.
  destruct (find (isViewed s) (needsDetection s)) as [p|] eqn:Hfind.
  - pose proof Hfind as Hq. apply find_some in Hq as [Hp Hpv].
    apply list_elem_of_In in Hp. apply isViewed_true in Hpv.
    rewrite (detectionQueue_viewed s p Hnd Hp Hpv).
    unfold ids; simpl; fold (ids (filter (fun i => id i <> id p) (needsDetection s))).
    apply NoDup_cons. split.
    + rewrite ids_fmap, list_elem_of_fmap. intros (i & Heq & Hi).
      apply list_elem_of_filter in Hi as [Hne _]. congruence.
    + eapply sublist_NoDup; [by apply needsDetection_NoDup|].
      apply ids_sublist. apply sublist_filter.
  - unfold detectionQueue. rewrite Hfind. by apply needsDetection_NoDup.
Qed.

Section Scheduler.
Context {St : Type}.
Variable API_KEY : option string.
Variable requestBoxes : string -> Op St (list BoundingBox).
Variable fetchBase64 : string -> Op St string.
Implicit Types (s : AppState) (w : World St) (q : list ImageFile).

Abbreviation run := (processQueue API_KEY requestBoxes fetchBase64).
Abbreviation detect := (detectFor API_KEY requestBoxes fetchBase64).

(** Once the entry check has passed, the in-loop check cannot fire: the
    loop compares the clock with the cooldown captured by the closure. *)
Lemma processQueue_step cd c rest s w :
  cd <= now w ->
  run cd (c :: rest) s w =
  match detect c w with
  | (inl (Some bs), w1) => run cd rest (storeRegions (id c) bs s) (wait 4000 w1)
  | (inl None, w1) => run cd rest s (wait 4000 w1)
  | (inr e, w1) =>
      if isGeminiQuotaError e then
        (setProcessingMsg "Cota de IA atingida. Pausando por 60s..."
           (setQuotaCooldown (now w1 + 60 * 1000) s), w1, BreakQuota)
      else run cd rest s w1
  end.
Proof.
  intros Hcd. simpl. apply Z.ltb_ge in Hcd as ->.
  destruct (detect c w) as [[[bs|]|e] w1]; reflexivity.
Qed.

Lemma processQueue_extends cd q :
  forall s w s' w' x, run cd q s w = (s', w', x) -> extends w w'.
Proof.
  induction q as [|c rest IH]; intros s w s' w' x; simpl.
  - intros [= <- <- <-]. apply extends_refl.
  - destruct (now w <? cd); [intros [= <- <- <-]; apply extends_refl|].
    destruct (detect c w) as [[boxes|e] w1] eqn:Hd;
      apply detectFor_extends in Hd as [Hd _].
    + intros Hr%IH. eapply extends_trans; [exact Hd|].
      eapply extends_trans; [apply wait_extends | exact Hr].
    + destruct (isGeminiQuotaError e).
      * intros [= <- <- <-]. exact Hd.
      * intros Hr%IH. by eapply extends_trans.
Qed.

(** The first thing a run does is fetch the head of its queue. *)
Lemma processQueue_head_fetched cd c rest s w s' w' x :
  cd <= now w ->
  run cd (c :: rest) s w = (s', w', x) ->
  trace w ++ [EvFetch (originalUrl c)] `prefix_of` trace w'.
Proof.
  intros Hcd. rewrite processQueue_step by exact Hcd.
  destruct (detect c w) as [[[bs|]|e] w1] eqn:Hd;
    apply detectFor_extends in Hd as [_ Hd].
  - intros [_ Hr]%processQueue_extends. etrans; [exact Hd|].
    etrans; [|exact Hr]. by apply prefix_app_r.
  - intros [_ Hr]%processQueue_extends. etrans; [exact Hd|].
    etrans; [|exact Hr]. by apply prefix_app_r.
  - destruct (isGeminiQuotaError e).
    + intros [= <- <- <-]. exact Hd.
    + intros [_ Hr]%processQueue_extends. by etrans.
Qed.

Lemma processQueue_app cd pre post :
  forall s w,
    run cd (pre ++ post) s w =
    match run cd pre s w with
    | (s1, w1, Exhausted) => run cd post s1 w1
    | stopped => stopped
    end.
Proof.
  induction pre as [|c pre IH]; intros s w; simpl; [reflexivity|].
  destruct (now w <? cd); [reflexivity|].
  destruct (detect c w) as [[boxes|e] w1]; [apply IH|].
  destruct (isGeminiQuotaError e); [reflexivity | apply IH].
Qed.

(** A run keeps the ids of the image list, and leaves every image alone
    whose id is not in its queue. *)
Lemma processQueue_frame cd q :
  forall s w s' w' x,
    run cd q s w = (s', w', x) ->
    ids (images s') = ids (images s) /\
    (forall i, i ∈ images s -> id i ∉ ids q -> i ∈ images s').
Proof.
  induction q as [|c rest IH]; intros s w s' w' x; simpl.
  - intros [= <- <- <-]. auto.
  - destruct (now w <? cd); [intros [= <- <- <-]; auto|].
    destruct (detect c w) as [[[bs|]|e] w1].
    + intros [Hids Hfr]%IH. rewrite storeRegions_ids in Hids.
      split; [exact Hids|]. intros i Hin Hni.
      apply not_elem_of_cons in Hni as [Hne Hni].
      apply Hfr; [|exact Hni]. by apply storeRegions_other.
    + intros [Hids Hfr]%IH. split; [exact Hids|]. intros i Hin Hni.
      apply not_elem_of_cons in Hni as [_ Hni]. by apply Hfr.
    + destruct (isGeminiQuotaError e).
      * intros [= <- <- <-]. auto.
      * intros [Hids Hfr]%IH. split; [exact Hids|]. intros i Hin Hni.
        apply not_elem_of_cons in Hni as [_ Hni]. by apply Hfr.
Qed.

(** A trigger that passes the three entry checks runs the loop over the
    queue with the lock held and releases the lock afterwards, however the
    loop ended; any other trigger changes nothing. *)
Lemma checkPrivacy_runs_queue s w :
  isDetectingPrivacyRef s = false -> quotaCooldown s <= now w ->
  needsDetection s <> [] ->
  exists s' w' x,
    run (quotaCooldown s) (detectionQueue s) (setIsDetectingPrivacy true s) w
    = (s', w', x) /\
    checkPrivacy API_KEY requestBoxes fetchBase64 s w
    = (setIsDetectingPrivacy false s', w').
Proof.
  intros Hlock Hcd Hne. unfold checkPrivacy. rewrite Hlock.
  apply Z.ltb_ge in Hcd as ->.
  destruct (needsDetection s) as [|c l] eqn:Hnd; [contradiction|].
  simpl length. simpl Nat.eqb. cbv iota.
  destruct (run _ _ _ _) as [[s' w'] x]. by exists s', w', x.
Qed.

Lemma checkPrivacy_idle s w :
  isDetectingPrivacyRef s = true \/ now w < quotaCooldown s \/ needsDetection s = [] ->
  checkPrivacy API_KEY requestBoxes fetchBase64 s w = (s, w).
Proof.
  unfold checkPrivacy. intros [->|[Hcd|Hnd]]; [reflexivity| |].
  - apply Z.ltb_lt in Hcd as ->. by destruct (isDetectingPrivacyRef s).
  - rewrite Hnd. destruct (isDetectingPrivacyRef s); [reflexivity|].
    by destruct (now w <? quotaCooldown s).
Qed.

(** C3. In a detection run (unique image ids, entry check passed):
    the viewed image, when it is a candidate, heads the queue and is the
    first one fetched, and the other candidates follow in their order;
    when a candidate's detection raises the quota error after the
    candidates before it were processed, the run sets the cooldown to
    that moment plus 60000 ms and ends there, and that candidate and
    every later one are still in the image list as they were, without
    region state; when a candidate fails in any other way its image
    stays as it was and the run goes on, fetching the next candidate. *)
Theorem detection_run_viewed_first_quota_stops_other_failures_continue
        s w :
  NoDup (ids (images s)) ->
  quotaCooldown s <= now w ->
  let cd := quotaCooldown s in
  let s0 := setIsDetectingPrivacy true s in
  let queue := detectionQueue s in
  (forall v, v ∈ needsDetection s -> viewImageId s = Some (id v) ->
     queue = v :: filter (fun i => id i <> id v) (needsDetection s) /\
     forall s' w' x, run cd queue s0 w = (s', w', x) ->
       trace w ++ [EvFetch (originalUrl v)] `prefix_of` trace w')
  /\
  ((forall v, v ∈ needsDetection s -> viewImageId s <> Some (id v)) ->
     queue = needsDetection s)
  /\
  (forall pre c post s1 w1 e w2,
     queue = pre ++ c :: post ->
     run cd pre s0 w = (s1, w1, Exhausted) ->
     detect c w1 = (inr e, w2) -> isGeminiQuotaError e = true ->
     exists s',
       run cd queue s0 w = (s', w2, BreakQuota) /\
       quotaCooldown s' = now w2 + 60000 /\
       images s' = images s1 /\
       forall i, i ∈ c :: post -> i ∈ images s' /\ privacyRegions i = None)
  /\
  (forall pre c post s1 w1 r w2,
     queue = pre ++ c :: post ->
     run cd pre s0 w = (s1, w1, Exhausted) ->
     detect c w1 = (r, w2) ->
     (r = inl None \/ exists e, r = inr e /\ isGeminiQuotaError e = false) ->
     c ∈ images s1 /\ privacyRegions c = None /\
     exists w3,
       run cd (pre ++ [c]) s0 w = (s1, w3, Exhausted) /\
       run cd queue s0 w = run cd post s1 w3 /\
       forall n post' s' w' x,
         post = n :: post' -> run cd queue s0 w = (s', w', x) ->
         trace w3 ++ [EvFetch (originalUrl n)] `prefix_of` trace w').
Proof.
  intros Hnd Hcd cd s0 queue.
  assert (Hkeep : forall pre c post s1 w1 i,
             queue = pre ++ c :: post ->
             run cd pre s0 w = (s1, w1, Exhausted) ->
             i ∈ c :: post -> i ∈ images s1 /\ privacyRegions i = None).
  { intros pre c post s1 w1 i Hq Hpre Hi.
    assert (Hiq : i ∈ queue) by (rewrite Hq, elem_of_app; by right).
    apply detectionQueue_elem, needsDetection_elem in Hiq as (Hin & _ & _ & Habs).
    split; [|exact Habs].
    apply processQueue_frame in Hpre as [_ Hfr]. apply Hfr; [exact Hin|].
    pose proof (detectionQueue_NoDup s Hnd) as Hqn. fold queue in Hqn.
    rewrite Hq in Hqn. unfold ids in Hqn. rewrite map_app in Hqn.
    apply NoDup_app in Hqn as (_ & Hdisj & _).
    intros Hpre_i. apply (Hdisj _ Hpre_i). by apply elem_of_ids. }
  split; [|split; [|split]].
  - intros v Hv Hview.
    pose proof (detectionQueue_viewed s v Hnd Hv Hview) as Hq. fold queue in Hq.
    split; [exact Hq|]. intros s' w' x. rewrite Hq.
    by apply processQueue_head_fetched.
  - apply detectionQueue_not_viewed.
  - intros pre c post s1 w1 e w2 Hq Hpre Hd He.
    pose proof (processQueue_extends _ _ _ _ _ _ _ Hpre) as [Hnow _].
    eexists. split; [|split; [|split]].
    + rewrite Hq, processQueue_app, Hpre, processQueue_step by lia.
      rewrite Hd, He. reflexivity.
    + simpl. lia.
    + reflexivity.
    + intros i Hi. simpl. by eapply Hkeep.
  - intros pre c post s1 w1 r w2 Hq Hpre Hd Hr.
    pose proof (processQueue_extends _ _ _ _ _ _ _ Hpre) as [Hnow _].
    pose proof (detectFor_extends _ _ _ _ _ _ _ Hd) as [[Hnow2 _] _].
    destruct (Hkeep pre c post s1 w1 c Hq Hpre ltac:(left)) as [Hc Habs].
    split; [exact Hc|]. split; [exact Habs|].
    destruct Hr as [-> | (e & -> & He)].
    + exists (wait 4000 w2). split; [|split].
      * rewrite processQueue_app, Hpre, processQueue_step, Hd by lia. reflexivity.
      * rewrite Hq, processQueue_app, Hpre, processQueue_step, Hd by lia. reflexivity.
      * intros n post' s' w' x -> Hrun.
        rewrite Hq, processQueue_app, Hpre, processQueue_step, Hd in Hrun by lia.
        eapply processQueue_head_fetched; [|exact Hrun]. simpl. lia.
    + exists w2. split; [|split].
      * rewrite processQueue_app, Hpre, processQueue_step, Hd, He by lia. reflexivity.
      * rewrite Hq, processQueue_app, Hpre, processQueue_step, Hd, He by lia. reflexivity.
      * intros n post' s' w' x -> Hrun.
        rewrite Hq, processQueue_app, Hpre, processQueue_step, Hd, He in Hrun by lia.
        eapply processQueue_head_fetched; [|exact Hrun]. lia.
Qed.

End Scheduler.

Lemma detection_run_witness :
  detectionQueue Scenario.gallery
  = [Scenario.imgZ; Scenario.imgU; Scenario.imgX; Scenario.imgY] /\
  exists s' w',
    processQueue Scenario.API_KEY Scenario.requestBoxes Scenario.fetchBase64
                 0 (detectionQueue Scenario.gallery)
                 (setIsDetectingPrivacy true Scenario.gallery) Scenario.w0
    = (s', w', BreakQuota) /\
    quotaCooldown s' = now w' + 60000 /\
    Scenario.imgU ∈ images s' /\ Scenario.imgX ∈ images s' /\
    Scenario.imgY ∈ images s'.
Proof.
  assert (Hnd : NoDup (ids (images Scenario.gallery))) by by_evaluation.
  assert (Hcd : quotaCooldown Scenario.gallery <= now Scenario.w0)
    by (vm_compute; discriminate).
  destruct (detection_run_viewed_first_quota_stops_other_failures_continue
              Scenario.API_KEY Scenario.requestBoxes Scenario.fetchBase64
              Scenario.gallery Scenario.w0 Hnd Hcd)
    as (Hord & _ & Hquota & Hother).
  split.
  - destruct (Hord Scenario.imgZ) as [Hq _].
    + apply needsDetection_elem. split; [|split; [|split]].
      * apply list_elem_of_In; simpl; tauto.
      * by_evaluation.
      * reflexivity.
      * reflexivity.
    + reflexivity.
    + rewrite Hq. vm_compute. reflexivity.
  - edestruct (Hother [Scenario.imgZ] Scenario.imgU [Scenario.imgX; Scenario.imgY])
      as (HU & _ & _).
    + vm_compute. reflexivity.
    + vm_compute. reflexivity.
    + vm_compute. reflexivity.
    + right. eexists. split; reflexivity.
    + edestruct (Hquota [Scenario.imgZ; Scenario.imgU] Scenario.imgX [Scenario.imgY])
        as (s' & Hrun & Hcool & Himgs & Hkeep).
      * vm_compute. reflexivity.
      * vm_compute. reflexivity.
      * vm_compute. reflexivity.
      * reflexivity.
      * exists s'. eexists. split; [exact Hrun|]. split; [exact Hcool|].
        split; [|split].
        -- rewrite Himgs. exact HU.
        -- apply Hkeep. left.
        -- apply Hkeep. right. left.
Defined.

(** ** Detection without an API key *)

Lemma storeRegions_elem (t : string) (bs : list BoundingBox) (s : AppState)
      (i : ImageFile) :
  i ∈ images (storeRegions t bs s) ->
  exists i0, i0 ∈ images s /\
             ((id i0 = t /\ i = withRegions bs i0) \/ (id i0 <> t /\ i = i0)).
Proof.
  rewrite storeRegions_images, list_elem_of_In, in_map_iff.
  intros (i0 & Hi & Hin). exists i0. split; [by apply list_elem_of_In|].
  destruct (String.eqb_spec (id i0) t); [left | right]; auto.
Qed.

Section NoApiKey.
Context {St : Type}.
Variable API_KEY : option string.
Variable requestBoxes : string -> Op St (list BoundingBox).
Variable fetchBase64 : string -> Op St string.
Hypothesis no_key : getAiClient API_KEY = false.

Abbreviation run' := (processQueue API_KEY requestBoxes fetchBase64).
Abbreviation detect' := (detectFor API_KEY requestBoxes fetchBase64).

Lemma no_key_detectPrivacyObjects (base64 : string) (w : World St) :
  detectPrivacyObjects API_KEY requestBoxes base64 w = (inl (Some []), w).
Proof. unfold detectPrivacyObjects. rewrite no_key. reflexivity. Qed.

Lemma no_key_detectFor (c : ImageFile) (w : World St) r w1 :
  detect' c w = (r, w1) -> r = inl (Some []) \/ exists e, r = inr e.
Proof.
  unfold detectFor. destruct (perform _ _ w) as [[b64|e] w0].
  - rewrite no_key_detectPrivacyObjects. intros [= <- <-]. by left.
  - intros [= <- <-]. right. by exists e.
Qed.

(** Without a key a run can only ever store the empty set, so images of
    id [t] that hold the empty set keep it. *)
Lemma no_key_run_keeps_empty (t : string) (cd : Z) (q : list ImageFile) :
  forall (s : AppState) (w : World St) s' w' x,
    run' cd q s w = (s', w', x) ->
    (forall i, i ∈ images s -> id i = t -> privacyRegions i = Some []) ->
    (forall i, i ∈ images s' -> id i = t -> privacyRegions i = Some []).
Proof.
  induction q as [|c rest IH]; intros s w s' w' x; simpl.
  - intros [= <- <- <-]. auto.
  - destruct (now w <? cd); [intros [= <- <- <-]; auto|].
    destruct (detect' c w) as [r w1] eqn:Hd.
    destruct (no_key_detectFor _ _ _ _ Hd) as [-> | [e ->]].
    + intros Hrun Hs. eapply IH; [exact Hrun|].
      intros i [i0 [Hi0 [[_ ->] | [_ ->]]]]%storeRegions_elem Hid;
        [reflexivity | by apply Hs].
    + destruct (isGeminiQuotaError e); [intros [= <- <- <-]; auto|].
      intros Hrun Hs. by eapply IH.
Qed.

(** C10. Without an API key [detectPrivacyObjects] answers with the
    empty list at once and leaves the world as it is (no request is
    made).  In a run, a candidate whose source could be fetched ends up
    with the empty region set, is still in the image list, and is not a
    candidate in any later state, although nothing was detected. *)
Theorem no_api_key_marks_candidates_scanned_clean
        (cd : Z) (s : AppState) (w : World St)
        (pre : list ImageFile) (c : ImageFile) (post : list ImageFile)
        (s1 : AppState) (w1 : World St) (base64 : string) (st' : St) (d : N)
        (s' : AppState) (w' : World St) (x : LoopExit) :
  cd <= now w ->
  run' cd pre s w = (s1, w1, Exhausted) ->
  fetchBase64 (originalUrl c) (remote w1) = (inl base64, st', d) ->
  run' cd (pre ++ c :: post) s w = (s', w', x) ->
  (forall b64 w0,
      detectPrivacyObjects API_KEY requestBoxes b64 w0 = (inl (Some []), w0)) /\
  (c ∈ images s -> exists i, i ∈ images s' /\ id i = id c) /\
  (forall i, i ∈ images s' -> id i = id c ->
     privacyRegions i = Some [] /\
     forall s'' j, privacyRegions j = privacyRegions i -> j ∉ needsDetection s'').
Proof.
  intros Hcd Hpre Hfetch Hrun.
  split; [apply no_key_detectPrivacyObjects|]. split.
  - intros Hc%elem_of_ids.
    apply processQueue_frame in Hrun as [Hids _]. rewrite <- Hids in Hc.
    rewrite ids_fmap in Hc. apply list_elem_of_fmap in Hc as (i & Hid & Hi).
    by exists i.
  - pose proof (processQueue_extends _ _ _ _ _ _ _ _ _ _ Hpre) as [Hnow _].
    rewrite processQueue_app, Hpre, processQueue_step in Hrun by lia.
    unfold detectFor, perform in Hrun. rewrite Hfetch in Hrun.
    rewrite no_key_detectPrivacyObjects in Hrun.
    intros i Hi Hid.
    assert (Hreg : privacyRegions i = Some []).
    { eapply (no_key_run_keeps_empty (id c)); [exact Hrun| |exact Hi|exact Hid].
      intros i1 [i0 [Hi0 [[_ ->] | [Hne ->]]]]%storeRegions_elem Hid1;
        [reflexivity | contradiction]. }
    split; [exact Hreg|].
    intros s'' j Hj Hin. apply needsDetection_elem in Hin as (_ & _ & _ & Habs).
    congruence.
Qed.

End NoApiKey.

Lemma no_api_key_witness :
  exists s' w' x,
    processQueue None Scenario.requestBoxes Scenario.fetchBase64 0
                 ([Scenario.imgZ] ++ Scenario.imgX :: [Scenario.imgY])
                 Scenario.gallery Scenario.w0 = (s', w', x) /\
    trace w' = [EvFetch "blob:z"; EvWait 4000; EvFetch "blob:x"; EvWait 4000;
                EvFetch "blob:y"; EvWait 4000] /\
    exists i, i ∈ images s' /\ id i = "x" /\ privacyRegions i = Some [] /\
              i ∉ needsDetection s'.
Proof.
  eexists _, _, _. split; [vm_compute; reflexivity|]. split; [reflexivity|].
  edestruct (no_api_key_marks_candidates_scanned_clean
               None Scenario.requestBoxes Scenario.fetchBase64 eq_refl
               0 Scenario.gallery Scenario.w0
               [Scenario.imgZ] Scenario.imgX [Scenario.imgY])
    as (_ & Hthere & Hclean).
  - vm_compute. discriminate.
  - vm_compute. reflexivity.
  - vm_compute. reflexivity.
  - vm_compute. reflexivity.
  - destruct Hthere as (i & Hi & Hid); [apply list_elem_of_In; simpl; tauto|].
    destruct (Hclean i Hi Hid) as [Hreg Hnever].
    exists i. split; [exact Hi|]. split; [exact Hid|]. split; [exact Hreg|].
    by apply Hnever.
Defined.

(** ** CompositingPipeline *)




Section PipelineFacts.
Variable B : Browser.
Variable adj : Adjustments.
Variables W H : Z.

Lemma setCtx_painted f cv : painted (setCtx f cv) = painted cv.
Proof. reflexivity. Qed.

Lemma pixelate_sourceOver data x y w py px cv :
  sourceOver cv -> sourceOver (pixelate W data x y w py px cv).
Proof. exact (fun H => H). Qed.

Lemma foldl_invariant {A C} (P : A -> Prop) (f : A -> C -> A) (l : list C) :
  (forall a c, P a -> P (f a c)) -> forall a, P a -> P (foldl f a l).
Proof. intros Hf. induction l as [|c l IH]; simpl; auto. Qed.

Lemma blurRegion_sourceOver cv box :
  sourceOver cv -> sourceOver (blurRegion B W H cv box).
Proof.
  intros Hcv. unfold blurRegion. destruct (regionRect W H box) as [[[x y] w] h].
  destruct (_ || _); [exact Hcv|].
  destruct (getImageData B _ _ _ _ _) as [data|]; [|exact Hcv].
  apply foldl_invariant; [|exact Hcv]. intros cv1 py H1.
  apply foldl_invariant; [|exact H1]. intros cv2 px H2.
  by apply pixelate_sourceOver.
Qed.

Lemma stagePrivacy_sourceOver regions cv :
  sourceOver cv -> sourceOver (stagePrivacy B adj W H regions cv).
Proof.
  intros Hcv. unfold stagePrivacy. destruct (_ && _); [|exact Hcv].
  apply foldl_invariant; [|exact Hcv]. intros. by apply blurRegion_sourceOver.
Qed.

Lemma stageFilters_sourceOver cv :
  sourceOver cv -> sourceOver (stageFilters B adj W H cv).
Proof. intros Hcv. unfold stageFilters. by destruct (filterContext B). Qed.

Lemma filteredBase_sourceOver imageUrl regions :
  sourceOver (filteredBase B adj W H imageUrl regions).
Proof.
  apply stageFilters_sourceOver, stagePrivacy_sourceOver. reflexivity.
Qed.

(** With positive warmth the warmth stage is one fill of the whole frame
    with rgba(255, 160, 0, warmth/500), issued under the compositing
    operation of the incoming context. *)
Lemma stageWarmth_positive cv :
  (0 < warmth adj)%Q ->
  painted (stageWarmth adj W H cv) =
  painted cv ++
  [PFillRect (mkCtx [] (rgba 255 160 0 (warmth adj / 500))
                    (globalAlpha (ctx cv)) (globalCompositeOperation (ctx cv))
                    (font (ctx cv)) (textAlign (ctx cv)) (textBaseline (ctx cv))
                    (shadowColor (ctx cv)) (shadowBlur (ctx cv)))
             0 0 (inject_Z W) (inject_Z H)].
Proof.
  intros Hpos. unfold stageWarmth.
  destruct (Qlt_le_dec 0 (warmth adj)) as [_|Hle]; [reflexivity|].
  exfalso. by apply (Qlt_not_le _ _ Hpos).
Qed.

Lemma stageWarmth_zero cv :
  (warmth adj <= 0)%Q -> stageWarmth adj W H cv = cv.
Proof.
  intros Hle. unfold stageWarmth.
  destruct (Qlt_le_dec 0 (warmth adj)) as [Hpos|_]; [|reflexivity].
  exfalso. by apply (Qlt_not_le _ _ Hpos).
Qed.

End PipelineFacts.

(** In the export pipeline the warmth fill is always issued under
    [SourceOver], the plain alpha blend. *)
Lemma composite_warmth_fill_sourceOver (B : Browser) (adj : Adjustments)
      (W H : Z) (imageUrl : string) (regions : list BoundingBox) :
  (0 < warmth adj)%Q ->
  exists c,
    painted (stageWarmth adj W H (filteredBase B adj W H imageUrl regions)) =
    painted (filteredBase B adj W H imageUrl regions)
    ++ [PFillRect c 0 0 (inject_Z W) (inject_Z H)] /\
    fillStyle c = rgba 255 160 0 (warmth adj / 500) /\
    globalCompositeOperation c = SourceOver.
Proof.
  intros Hpos. eexists. split; [by apply stageWarmth_positive|].
  split; [reflexivity|]. apply filteredBase_sourceOver.
Qed.

(** C6. On the cinematic preset (warmth 20) the export pipeline paints
    the warm hue rgba(255, 160, 0, 20/500) over the whole 800x600 frame
    as one [fillRect] under the compositing operation [SourceOver]: a flat
    alpha tint.  The preview, by contrast, uses the overlay blend mode. *)
Theorem export_warmth_fill_is_flat_source_over_tint :
  painted (composite Scenario.browser Scenario.cinematic 800 600 "blob:a" []) =
  painted (filteredBase Scenario.browser Scenario.cinematic 800 600 "blob:a" [])
  ++ [PFillRect (mkCtx [] (rgba 255 160 0 (20 # 500)) 1%Q SourceOver defaultFont
                       AlignStart BaselineAlphabetic (rgba 0 0 0 0%Q) 0%Q)
                0%Q 0%Q (inject_Z 800) (inject_Z 600)].
Proof. vm_compute. reflexivity. Qed.

(** C8. With warmth 0, no overlay image and a non-empty watermark, the
    exported frame is the tone-filtered base followed by exactly one more
    paint, the watermark text, anchored right/bottom at 2% of the width
    from the bottom-right corner and issued with [filter] set to none. *)
Theorem watermark_painted_last_over_filtered_base
        (B : Browser) (imageUrl : string) (adj : Adjustments)
        (regions : option (list BoundingBox)) (quality : option Q) (blob : Blob) :
  (warmth adj == 0)%Q -> overlayImage adj = None -> watermark adj <> "" ->
  processImageOnCanvas B imageUrl adj regions quality = inl blob ->
  let W := blob_width blob in
  let H := blob_height blob in
  let base := filteredBase B adj W H imageUrl (default [] regions) in
  exists c,
    blob_pixels blob =
    painted base
    ++ [PFillText c (watermark adj)
                  (inject_Z W - inject_Z W * (2 # 100))%Q
                  (inject_Z H - inject_Z W * (2 # 100))%Q] /\
    filter_ c = [] /\ textAlign c = AlignRight /\ textBaseline c = BaselineBottom /\
    fillStyle c = rgba 255 255 255 (7 # 10) /\
    font c = boldSansSerif (mathMax 20 (inject_Z W * (5 # 100))) /\
    shadowColor c = rgba 0 0 0 (5 # 10) /\ shadowBlur c = 4%Q /\
    globalCompositeOperation c = SourceOver.
Proof.
  intros Hwarm Hnone Hmark. unfold processImageOnCanvas.
  destruct (loadImage B imageUrl) as [[W0 H0]|]; [|discriminate].
  destruct (negb (mainContext B)); [discriminate|].
  destruct (toBlob B W0 H0 _); [|discriminate].
  intros [= <-]. simpl. unfold composite.
  fold (filteredBase B adj W0 H0 imageUrl (default [] regions)).
  unfold stageOverlay. rewrite Hnone.
  rewrite stageWarmth_zero by (rewrite Hwarm; apply Qle_refl).
  unfold stageWatermark.
  destruct (String.eqb_spec (watermark adj) ""); [contradiction|].
  eexists. split; [reflexivity|]. simpl.
  repeat (split; [reflexivity|]).
  apply filteredBase_sourceOver.
Qed.

Lemma watermark_witness :
  exists blob c,
    processImageOnCanvas Scenario.browser "blob:a"
      (Scenario.withWatermark "X" Scenario.DEFAULT_ADJUSTMENTS) None None
    = inl blob /\
    blob_pixels blob =
    painted (filteredBase Scenario.browser
               (Scenario.withWatermark "X" Scenario.DEFAULT_ADJUSTMENTS)
               800 600 "blob:a" [])
    ++ [PFillText c "X" (inject_Z 800 - inject_Z 800 * (2 # 100))%Q
                  (inject_Z 600 - inject_Z 800 * (2 # 100))%Q] /\
    filter_ c = [].
Proof.
  eexists. 
  edestruct (watermark_painted_last_over_filtered_base
               Scenario.browser "blob:a"
               (Scenario.withWatermark "X" Scenario.DEFAULT_ADJUSTMENTS) None None)
    as (c & Hpix & Hfilter & _).
  - reflexivity.
  - reflexivity.
  - discriminate.
  - vm_compute. reflexivity.
  - exists c. split; [reflexivity|]. split; [exact Hpix | exact Hfilter].
Defined.

(** ** BatchExporter *)

Section ExportFacts.
Variable B : Browser.

Abbreviation render c :=
  (processImageOnCanvas B (originalUrl c) (adjustments c) (privacyRegions c) None).

(** The loop stops at the first rejected image, having delivered and
    alerted nothing. *)
Lemma renderLoop_rejected (todo : list ImageFile) (c : ImageFile) (e : JsError) :
  c ∈ todo -> render c = inr e ->
  forall i total acc o,
  exists e' o',
    renderLoop B todo i total acc o = (inr e', o') /\
    downloads o' = downloads o /\ alerts o' = alerts o.
Proof.
  intros Hin Hc. induction todo as [|a todo IH]; [by apply elem_of_nil in Hin|].
  intros i total acc o. simpl.
  destruct (render a) as [blob|ea] eqn:Ha.
  - apply elem_of_cons in Hin as [->|Hin]; [congruence|].
    destruct (IH Hin (S i) total
                 (acc ++ [mkProcessedFile blob ("edited_" +:+ name a)])
                 (report (i + 1) total (name a) o))
      as (e' & o' & Hr & Hd & Hal).
    exists e', o'. auto.
  - exists ea, (report (i + 1) total (name a) o). auto.
Qed.

(** When every image is composited, the files are the images in order,
    each named "edited_" followed by the image name. *)
Lemma renderLoop_fulfilled (todo : list ImageFile) :
  forall i total acc o files o',
    renderLoop B todo i total acc o = (inl files, o') ->
    file_name <$> files
    = (file_name <$> acc) ++ ((fun c => "edited_" +:+ name c) <$> todo) /\
    downloads o' = downloads o /\ alerts o' = alerts o.
Proof.
  induction todo as [|a todo IH]; intros i total acc o files o'; simpl.
  - intros [= <- <-]. by rewrite app_nil_r.
  - destruct (render a) as [blob|ea]; [|discriminate].
    intros (Hn & Hd & Hal)%IH. rewrite Hn, fmap_app, <- app_assoc.
    auto.
Qed.

Lemma processImageOnCanvas_rejected imageUrl adj regions quality e :
  processImageOnCanvas B imageUrl adj regions quality = inr e ->
  loadImage B imageUrl = None \/ mainContext B = false \/
  exists W H px, toBlob B W H px = false.
Proof.
  unfold processImageOnCanvas.
  destruct (loadImage B imageUrl) as [[W H]|]; [|by left].
  destruct (mainContext B); [|by right; left]. simpl.
  destruct (toBlob B W H _) eqn:Hb; [discriminate|]. right. right. eauto.
Qed.

(** A region without a positive pixel size, or whose pixels cannot be
    read, is skipped. *)
Lemma blurRegion_skipped W H cv box :
  (let '(x, y, w, h) := regionRect W H box in
   w <= 0 \/ h <= 0 \/ getImageData B (painted cv) x y w h = None) ->
  blurRegion B W H cv box = cv.
Proof.
  unfold blurRegion.
  destruct (regionRect W H box) as [[[x y] w] h].
  intros [Hw|[Hh|Hg]].
  - apply Z.leb_le in Hw as ->. reflexivity.
  - apply Z.leb_le in Hh as ->. by rewrite orb_true_r.
  - rewrite Hg. by destruct (_ || _).
Qed.

End ExportFacts.

(** On an image whose only region is upside down (pixel height -150), and
    on one whose region pixels cannot be read back, the export still
    delivers the file and raises no alert: C5 as worded (invalid region
    bounds abort the batch) fails. *)
Lemma invalid_region_bounds_do_not_abort_export :
  regionRect 800 600 Scenario.upsideDown = (200, 300, 400, -150) /\
  (exists blob,
     snd (handleBatchDownload Scenario.browser Scenario.badRegionExport)
     = mkOutcome [mkDownload (ImageBlob blob) "edited_bad.jpg"] []
                 [(1%nat, 1%nat, "bad.jpg")]) /\
  (exists blob,
     snd (handleBatchDownload Scenario.taintedBrowser Scenario.taintedExport)
     = mkOutcome [mkDownload (ImageBlob blob) "edited_face.jpg"] []
                 [(1%nat, 1%nat, "face.jpg")]).
Proof.
  split; [reflexivity|].
  split; eexists; vm_compute; reflexivity.
Qed.

(** C5 (amended). When compositing of any target image is rejected, the
    export delivers nothing, shows the generic alert once and leaves the
    processing flag cleared; a rejection can only come from a source that
    fails to load, a missing 2D context or a canvas that cannot be
    encoded.  A region with a non-positive pixel size, or whose pixels
    cannot be read, is skipped by the redaction and rejects nothing. *)
Theorem rejected_compositing_aborts_batch_invalid_regions_skipped
        (B : Browser) (s : AppState) (c : ImageFile) (e : JsError) :
  c ∈ targets s ->
  processImageOnCanvas B (originalUrl c) (adjustments c) (privacyRegions c) None
  = inr e ->
  (downloads (snd (handleBatchDownload B s)) = [] /\
   alerts (snd (handleBatchDownload B s)) = ["Erro durante o download em lote."] /\
   isProcessing (fst (handleBatchDownload B s)) = false /\
   processingMsg (fst (handleBatchDownload B s)) = "") /\
  (loadImage B (originalUrl c) = None \/ mainContext B = false \/
   exists W H px, toBlob B W H px = false) /\
  (forall W H cv box,
      (let '(x, y, w, h) := regionRect W H box in
       w <= 0 \/ h <= 0 \/ getImageData B (painted cv) x y w h = None) ->
      blurRegion B W H cv box = cv).
Proof.
  intros Hin Hrej. split; [|split].
  - unfold handleBatchDownload.
    destruct (images s) as [|a l] eqn:Himgs.
    { unfold targets in Hin. rewrite Himgs in Hin. by apply elem_of_nil in Hin. }
    simpl length. simpl Nat.eqb. cbv iota.
    destruct (renderLoop_rejected B (targets s) c e Hin Hrej 0%nat
                (length (targets s)) [] noOutcome) as (e' & o' & Hr & Hd & Hal).
    rewrite Hr. simpl. rewrite Hd, Hal. auto.
  - by eapply processImageOnCanvas_rejected.
  - intros W H cv box. by apply blurRegion_skipped.
Qed.

Lemma rejected_compositing_witness :
  downloads (snd (handleBatchDownload Scenario.brokenSecond Scenario.threePhotos)) = [] /\
  alerts (snd (handleBatchDownload Scenario.brokenSecond Scenario.threePhotos))
  = ["Erro durante o download em lote."].
Proof.
  destruct (rejected_compositing_aborts_batch_invalid_regions_skipped
              Scenario.brokenSecond Scenario.threePhotos Scenario.p2 imageLoadError)
    as ((Hd & Ha & _) & _).
  - assert (Ht : targets Scenario.threePhotos = [Scenario.p1; Scenario.p2; Scenario.p3])
      by (vm_compute; reflexivity).
    rewrite Ht. apply list_elem_of_In; simpl; tauto.
  - reflexivity.
  - split; [exact Hd | exact Ha].
Defined.

(** *** The archive *)

Lemma zipFiles_fold_dom (files : list ProcessedFile) (zip : gmap string Blob) :
  dom (foldl (fun z f => <[file_name f := file_blob f]> z) zip files)
  = dom zip ∪ list_to_set (file_name <$> files).
Proof.
  revert zip. induction files as [|f files IH]; intros zip; simpl.
  - by rewrite union_empty_r_L.
  - rewrite IH, dom_insert_L, (comm_L (∪) {[file_name f]}), <- (assoc_L (∪)).
    reflexivity.
Qed.

(** The archive has one entry per file name. *)
Lemma zipFiles_dom (files : list ProcessedFile) :
  dom (zipFiles files) = list_to_set (file_name <$> files).
Proof.
  unfold zipFiles. by rewrite zipFiles_fold_dom, dom_empty_L, union_empty_l_L.
Qed.

(** With pairwise distinct names the archive has one entry per file. *)
Lemma zipFiles_size_distinct (files : list ProcessedFile) :
  NoDup (file_name <$> files) -> size (zipFiles files) = length files.
Proof.
  intros Hnd. rewrite <- size_dom, zipFiles_dom.
  rewrite size_list_to_set by exact Hnd. apply length_fmap.
Qed.

(** X16. One target: its rendering is delivered as a single file named
    "edited_" followed by the image name. *)
Lemma export_single_file (B : Browser) (s : AppState) (c : ImageFile) (blob : Blob) :
  targets s = [c] ->
  processImageOnCanvas B (originalUrl c) (adjustments c) (privacyRegions c) None
  = inl blob ->
  downloads (snd (handleBatchDownload B s))
  = [mkDownload (ImageBlob blob) ("edited_" +:+ name c)].
Proof.
  intros Ht Hc. unfold handleBatchDownload.
  destruct (images s) as [|a l] eqn:Himgs.
  { unfold targets in Ht. by rewrite Himgs in Ht. }
  simpl length. simpl Nat.eqb. cbv iota.
  rewrite Ht. simpl. rewrite Hc. reflexivity.
Qed.

(** X17. Several targets, all composited: one archive is delivered, built from
    one file per target in order, each named "edited_" followed by the
    image name; it has one entry per target when these names are pairwise
    distinct. *)
Lemma export_archive (B : Browser) (s : AppState) (files : list ProcessedFile)
      (o : Outcome) :
  (2 <= length (targets s))%nat ->
  renderLoop B (targets s) 0 (length (targets s)) [] noOutcome = (inl files, o) ->
  downloads (snd (handleBatchDownload B s))
  = [mkDownload (ZipArchive (zipFiles files)) "lumina_fotos_editadas.zip"] /\
  file_name <$> files = (fun c => "edited_" +:+ name c) <$> targets s /\
  (NoDup (name <$> targets s) -> size (zipFiles files) = length (targets s)).
Proof.
  intros Hlen Hr.
  pose proof (renderLoop_fulfilled _ _ _ _ _ _ _ _ Hr) as (Hn & Hd & _).
  simpl in Hn. assert (Hl : length files = length (targets s)).
  { rewrite <- (length_fmap file_name files), Hn. apply length_fmap. }
  split; [|split; [exact Hn|]].
  - unfold handleBatchDownload.
    destruct (images s) as [|a l] eqn:Himgs.
    { unfold targets in Hlen. rewrite Himgs in Hlen. simpl in Hlen. lia. }
    simpl length. simpl Nat.eqb. cbv iota. rewrite Hr.
    destruct files as [|f1 [|f2 files]]; simpl in Hl; [lia | lia |].
    unfold downloadAsZip, downloadBlob. simpl. by rewrite Hd.
  - intros Hnd. rewrite zipFiles_size_distinct; [exact Hl|].
    rewrite Hn.
    change ((fun c => "edited_" +:+ name c) <$> targets s)
      with ((String.append "edited_" ∘ name) <$> targets s).
    rewrite list_fmap_compose.
    apply NoDup_fmap_2; [|exact Hnd].
    intros x y Heq. by injection Heq.
Qed.

(** C4. Two selected images that carry the same name are both
    composited, but the archive delivered for them holds a single entry,
    "edited_IMG_0001.jpg", with the rendering of the second image: the
    entry of the first one is replaced. *)
Theorem same_named_images_collapse_to_one_archive_entry :
  length (targets Scenario.sameNames) = 2%nat /\
  exists file1 file2,
    fst (renderLoop Scenario.browser (targets Scenario.sameNames) 0 2 [] noOutcome)
    = inl [file1; file2] /\
    file_name file1 = "edited_IMG_0001.jpg" /\
    file_name file2 = "edited_IMG_0001.jpg" /\
    downloads (snd (handleBatchDownload Scenario.browser Scenario.sameNames))
    = [mkDownload (ZipArchive (zipFiles [file1; file2])) "lumina_fotos_editadas.zip"] /\
    size (zipFiles [file1; file2]) = 1%nat /\
    zipFiles [file1; file2] !! "edited_IMG_0001.jpg" = Some (file_blob file2).
Proof.
  split; [vm_compute; reflexivity|].
  eexists _, _. split; [vm_compute; reflexivity|].
  split; [reflexivity|]. split; [reflexivity|].
  split; [vm_compute; reflexivity|].
  split; [vm_compute; reflexivity|].
  vm_compute. reflexivity.
Qed.


(** * Further properties *)

(** ** retryWithBackoff in general *)

Section RetryFacts.
Context {St T : Type}.
Variable fn : Op St T.

(** Every invocation follows the backoff schedule: it performs [k + 1]
    calls for some [k] within the retry budget. *)
Lemma retryWithBackoff_schedule (n : nat) :
  forall retries delay (w : World St),
    (Z.to_nat retries <= n)%nat ->
    exists k : nat,
      Z.of_nat k <= Z.max 0 retries /\
      trace (snd (retryWithBackoff fn retries delay w))
      = trace w ++ backoffTrace k delay.
Proof.
  induction n as [|n IH]; intros retries delay w Hn;
    rewrite retryWithBackoff_eq;
    destruct (perform EvRemote fn w) as [[v|e] w1] eqn:Hp;
    apply perform_trace in Hp as [Ht _];
    try (exists 0%nat; split; [lia | exact Ht]);
    destruct (isRateLimit e); try (exists 0%nat; split; [lia | exact Ht]);
    destruct (decide (0 < retries)); try (exists 0%nat; split; [lia | exact Ht]).
  - lia.
  - destruct (IH (retries - 1) (delay * 2) (wait delay w1) ltac:(lia))
      as (k & Hk & Htr).
    exists (S k). split; [lia|].
    rewrite Htr. simpl. rewrite Ht, <- !app_assoc. reflexivity.
Qed.

(** A failure handed to the caller is the quota error or an error that
    is not classified as a rate limit. *)
Lemma retryWithBackoff_error (n : nat) :
  forall retries delay (w : World St) e,
    (Z.to_nat retries <= n)%nat ->
    fst (retryWithBackoff fn retries delay w) = inr e ->
    e = GeminiQuotaError \/ isRateLimit e = false.
Proof.
  induction n as [|n IH]; intros retries delay w e Hn;
    rewrite retryWithBackoff_eq;
    destruct (perform EvRemote fn w) as [[v|e0] w1];
    try discriminate;
    destruct (isRateLimit e0) eqn:Hq;
    try (simpl; intros [= <-]; by right);
    destruct (decide (0 < retries));
    try (simpl; intros [= <-]; by left).
  - lia.
  - apply IH. lia.
Qed.

Lemma attempts_app (l k : list Event) : attempts (l ++ k) = (attempts l + attempts k)%nat.
Proof. unfold attempts. by rewrite List.filter_app, length_app. Qed.

Lemma attempts_backoffTrace (k : nat) (delay : Z) :
  attempts (backoffTrace k delay) = S k.
Proof.
  revert delay. induction k as [|k IH]; intros delay; [reflexivity|].
  change (attempts (backoffTrace (S k) delay))
    with (S (attempts (backoffTrace k (delay * 2)))).
  by rewrite IH.
Qed.

End RetryFacts.

(** X1. Whatever the wrapped operation does, [retryWithBackoff] appends to
    the trace exactly one backoff schedule: [k + 1] calls for some [k] not
    above the retry budget (none when the budget is not positive), with no
    wait before the first call or after the last and the waits doubling
    from [delay]; so it never calls the operation more than
    [max 0 retries + 1] times. *)
Theorem retryWithBackoff_follows_backoff_schedule
        {St T} (fn : Op St T) (retries delay : Z) (w : World St) :
  exists k : nat,
    Z.of_nat k <= Z.max 0 retries /\
    trace (snd (retryWithBackoff fn retries delay w))
    = trace w ++ backoffTrace k delay /\
    attempts (backoffTrace k delay) = S k.
Proof.
  destruct (retryWithBackoff_schedule fn (Z.to_nat retries) retries delay w (le_n _))
    as (k & Hk & Ht).
  exists k. split; [exact Hk|]. split; [exact Ht|]. apply attempts_backoffTrace.
Qed.

(** X2. A failure that [retryWithBackoff] hands to its caller is either
    the quota error or an error that is not classified as a rate limit: a
    raw rate-limit error of the operation never reaches the caller. *)
Theorem retryWithBackoff_never_surfaces_raw_rate_limit
        {St T} (fn : Op St T) (retries delay : Z) (w : World St) (e : JsError) :
  fst (retryWithBackoff fn retries delay w) = inr e ->
  e = GeminiQuotaError \/ ~ QuotaClassified e.
Proof.
  intros He.
  destruct (retryWithBackoff_error fn (Z.to_nat retries) retries delay w e (le_n _) He)
    as [->|Hq]; [by left | right].
  rewrite <- isRateLimit_spec. congruence.
Qed.

Lemma retryWithBackoff_never_surfaces_raw_rate_limit_witness :
  ~ QuotaClassified Scenario.badRequest.
Proof.
  destruct (retryWithBackoff_never_surfaces_raw_rate_limit
              (T := unit) Scenario.alwaysBadRequest 2 2000 Scenario.w0
              Scenario.badRequest eq_refl) as [H|H]; [discriminate H | exact H].
Defined.

(** ** The service functions *)








(** ** The AI handlers and the circuit breaker *)

Section AiHandlerFacts.
Context {St : Type}.
Variable API_KEY : option string.
Variable requestSuggestion : string -> Op St (option ParsedSuggestion).
Variable requestCutout : option string -> Op St (option string).
Variable requestBoxes : string -> Op St (list BoundingBox).
Variable fetchBase64 : string -> Op St string.

Abbreviation autoEnhance :=
  (handleAutoEnhance API_KEY requestSuggestion fetchBase64).
Abbreviation removeBackground :=
  (handleRemoveBackground API_KEY requestCutout).

Lemma handleAutoEnhance_idle (renderedAt : Z) (s : AppState) (w : World St) :
  renderedAt < quotaCooldown s ->
  snd (autoEnhance renderedAt s w) = w /\
  images (fst (autoEnhance renderedAt s w)) = images s /\
  quotaCooldown (fst (autoEnhance renderedAt s w)) = quotaCooldown s /\
  isProcessing (fst (autoEnhance renderedAt s w)) = isProcessing s.
Proof.
  intros Hopen. unfold handleAutoEnhance, isQuotaExhausted.
  destruct (viewedImage s); [|done].
  apply Z.ltb_lt in Hopen as ->. done.
Qed.

Lemma handleRemoveBackground_idle (renderedAt : Z) (s : AppState) (w : World St) :
  renderedAt < quotaCooldown s ->
  snd (removeBackground renderedAt s w) = w /\
  images (fst (removeBackground renderedAt s w)) = images s /\
  quotaCooldown (fst (removeBackground renderedAt s w)) = quotaCooldown s /\
  isProcessing (fst (removeBackground renderedAt s w)) = isProcessing s.
Proof.
  intros Hopen. unfold handleRemoveBackground, isQuotaExhausted.
  destruct (viewedImage s); [|done].
  destruct (overlayImage _); [|done].
  destruct (String.eqb _ _); [done|].
  apply Z.ltb_lt in Hopen as ->. done.
Qed.

(** X6. While the breaker is open, none of the three AI entry points does
    any work: auto-enhance and background removal (breaker open at their
    render) and the detection trigger (breaker open at its call) leave
    the world as it is, that is, fetch nothing and call nothing, and change
    no image, cooldown or processing flag. *)
Theorem ai_entry_points_idle_while_breaker_open
        (renderedAt : Z) (s : AppState) (w : World St) :
  renderedAt < quotaCooldown s -> now w < quotaCooldown s ->
  (snd (autoEnhance renderedAt s w) = w /\
   images (fst (autoEnhance renderedAt s w)) = images s /\
   quotaCooldown (fst (autoEnhance renderedAt s w)) = quotaCooldown s /\
   isProcessing (fst (autoEnhance renderedAt s w)) = isProcessing s) /\
  (snd (removeBackground renderedAt s w) = w /\
   images (fst (removeBackground renderedAt s w)) = images s /\
   quotaCooldown (fst (removeBackground renderedAt s w)) = quotaCooldown s /\
   isProcessing (fst (removeBackground renderedAt s w)) = isProcessing s) /\
  checkPrivacy API_KEY requestBoxes fetchBase64 s w = (s, w).
Proof.
  intros Hr Hw. split; [by apply handleAutoEnhance_idle|].
  split; [by apply handleRemoveBackground_idle|].
  apply checkPrivacy_idle. auto.
Qed.

Lemma viewedImage_frame (s s' : AppState) :
  images s' = images s -> viewImageId s' = viewImageId s ->
  viewedImage s' = viewedImage s.
Proof.
  unfold viewedImage. intros -> Hv.
  induction (images s) as [|i l IH]; [reflexivity|]. simpl.
  unfold isViewed at 1 3. rewrite Hv. destruct (bool_decide _); [reflexivity | exact IH].
Qed.

(** X7. When auto-enhance runs (an image is viewed, the breaker was
    closed at render, the source was fetched) and the analysis fails, no
    image is changed and the processing flag is cleared.  If the failure
    is the quota error, the cooldown is set to the clock plus 60000 ms,
    and until then every AI entry point is idle on the resulting state;
    any other failure leaves the cooldown as it was. *)
Theorem auto_enhance_failure_trips_breaker_only_on_quota
        (renderedAt : Z) (s : AppState) (w w1 w2 : World St)
        (viewed : ImageFile) (base64 : string) (e : JsError) :
  viewedImage s = Some viewed ->
  quotaCooldown s <= renderedAt ->
  perform (EvFetch (originalUrl viewed)) (fetchBase64 (originalUrl viewed)) w
  = (inl base64, w1) ->
  analyzeImageForEnhancement API_KEY requestSuggestion base64 w1 = (inr e, w2) ->
  let s' := fst (autoEnhance renderedAt s w) in
  snd (autoEnhance renderedAt s w) = w2 /\
  images s' = images s /\ isProcessing s' = false /\
  (isGeminiQuotaError e = false -> quotaCooldown s' = quotaCooldown s) /\
  (isGeminiQuotaError e = true ->
   quotaCooldown s' = now w2 + 60000 /\
   forall t (w3 : World St),
     t < now w2 + 60000 -> now w3 < now w2 + 60000 ->
     snd (autoEnhance t s' w3) = w3 /\
     snd (removeBackground t s' w3) = w3 /\
     checkPrivacy API_KEY requestBoxes fetchBase64 s' w3 = (s', w3)).
Proof.
  intros Hview Hclosed Hfetch Han s'.
  assert (Hrun : autoEnhance renderedAt s w =
                 (setIsProcessing false
                    (if isGeminiQuotaError e then
                       setProcessingMsg "Cota atingida. Tente novamente em 60s."
                         (setQuotaCooldown (now w2 + 60000)
                            (setProcessingMsg "Melhoria IA..." (setIsProcessing true s)))
                     else setProcessingMsg "Falha na análise."
                            (setProcessingMsg "Melhoria IA..." (setIsProcessing true s))),
                  w2)).
  { unfold handleAutoEnhance, isQuotaExhausted. rewrite Hview.
    apply Z.ltb_ge in Hclosed as ->. rewrite Hfetch, Han. reflexivity. }
  subst s'. rewrite Hrun. simpl.
  destruct (isGeminiQuotaError e); simpl.
  - split; [reflexivity|]. split; [reflexivity|]. split; [reflexivity|].
    split; [discriminate|]. intros _. split; [reflexivity|].
    intros t w3 Ht Hw3.
    split; [by apply handleAutoEnhance_idle|].
    split; [by apply handleRemoveBackground_idle|].
    apply checkPrivacy_idle. simpl. auto.
  - split; [reflexivity|]. split; [reflexivity|]. split; [reflexivity|].
    split; [reflexivity | discriminate].
Qed.

(** X8. When auto-enhance obtains a suggestion, every selected image
    receives the viewed image's adjustments with the four suggested tone
    values put in: blur, sepia, grayscale, watermark, overlay and privacy
    blur of a selected image become those of the viewed image.  Ids,
    sources, names and detected regions are kept, images outside the
    selection are returned as they were, and the cooldown is untouched. *)
Theorem auto_enhance_applies_viewed_adjustments_to_selection
        (renderedAt : Z) (s : AppState) (w w1 w2 : World St)
        (viewed : ImageFile) (base64 : string) (suggestion : Suggestion)
        (k : nat) (img : ImageFile) :
  viewedImage s = Some viewed ->
  quotaCooldown s <= renderedAt ->
  perform (EvFetch (originalUrl viewed)) (fetchBase64 (originalUrl viewed)) w
  = (inl base64, w1) ->
  analyzeImageForEnhancement API_KEY requestSuggestion base64 w1
  = (inl (Some suggestion), w2) ->
  images s !! k = Some img ->
  let s' := fst (autoEnhance renderedAt s w) in
  quotaCooldown s' = quotaCooldown s /\ isProcessing s' = false /\
  exists img',
    images s' !! k = Some img' /\
    id img' = id img /\ originalUrl img' = originalUrl img /\
    name img' = name img /\ privacyRegions img' = privacyRegions img /\
    (id img ∉ selectedImageIds s -> img' = img) /\
    (id img ∈ selectedImageIds s ->
     let a := adjustments img' in
     let v := adjustments viewed in
     brightness a = suggested_brightness suggestion /\
     contrast a = suggested_contrast suggestion /\
     saturation a = suggested_saturation suggestion /\
     warmth a = suggested_warmth suggestion /\
     blur a = blur v /\ sepia a = sepia v /\ grayscale a = grayscale v /\
     watermark a = watermark v /\ overlayImage a = overlayImage v /\
     privacyBlur a = privacyBlur v).
Proof.
  intros Hview Hclosed Hfetch Han Hk s'.
  assert (Hrun : s' = setIsProcessing false
                        (updateAdjustments
                           (mergeSuggestion (adjustments viewed) suggestion)
                           (setProcessingMsg "Melhoria IA..." (setIsProcessing true s)))).
  { subst s'. unfold handleAutoEnhance, isQuotaExhausted. rewrite Hview.
    apply Z.ltb_ge in Hclosed as ->. rewrite Hfetch, Han. reflexivity. }
  rewrite Hrun. simpl. split; [reflexivity|]. split; [reflexivity|].
  rewrite lookup_map, Hk. simpl. eexists. split; [reflexivity|].
  unfold has. case_bool_decide; simpl.
  - do 4 (split; [reflexivity|]). split; [intros ?; contradiction|].
    intros _. repeat split.
  - do 4 (split; [reflexivity|]). split; [reflexivity | intros ?; contradiction].
Qed.

End AiHandlerFacts.

Lemma ai_entry_points_idle_witness :
  snd (handleAutoEnhance Scenario2.key Scenario2.emptyAnswer Scenario2.fetchOk
         500 (setQuotaCooldown 60000 Scenario2.pair) Scenario.w0) = Scenario.w0 /\
  checkPrivacy Scenario2.key Scenario2.quotaBoxes Scenario2.fetchOk
               (setQuotaCooldown 60000 Scenario2.pair) Scenario.w0
  = (setQuotaCooldown 60000 Scenario2.pair, Scenario.w0).
Proof.
  destruct (ai_entry_points_idle_while_breaker_open
              Scenario2.key Scenario2.emptyAnswer Scenario2.cutout
              Scenario2.quotaBoxes Scenario2.fetchOk
              500 (setQuotaCooldown 60000 Scenario2.pair) Scenario.w0)
    as ((Hworld & _) & _ & Hcheck).
  - simpl. lia.
  - simpl. lia.
  - split; [exact Hworld | exact Hcheck].
Defined.

Lemma auto_enhance_failure_witness :
  exists w2,
    snd (handleAutoEnhance Scenario2.key Scenario2.quotaSuggestion Scenario2.fetchOk
           1000 Scenario2.pair Scenario.w0) = w2 /\
    trace w2 = [EvFetch "blob:a"; EvRemote; EvWait 2000; EvRemote; EvWait 4000; EvRemote] /\
    quotaCooldown
      (fst (handleAutoEnhance Scenario2.key Scenario2.quotaSuggestion Scenario2.fetchOk
              1000 Scenario2.pair Scenario.w0)) = now w2 + 60000.
Proof.
  eexists.
  edestruct (auto_enhance_failure_trips_breaker_only_on_quota
               Scenario2.key Scenario2.quotaSuggestion Scenario2.cutout
               Scenario2.quotaBoxes Scenario2.fetchOk
               1000 Scenario2.pair Scenario.w0)
    as (Hw & _ & _ & _ & Htrip).
  - vm_compute. reflexivity.
  - simpl. lia.
  - vm_compute. reflexivity.
  - vm_compute. reflexivity.
  - split; [exact Hw|]. split; [reflexivity|].
    destruct (Htrip eq_refl) as [Hcd _]. exact Hcd.
Defined.

Lemma auto_enhance_applies_witness :
  exists img',
    images (fst (handleAutoEnhance Scenario2.key Scenario2.emptyAnswer
                   Scenario2.fetchOk 1000 Scenario2.pair Scenario.w0)) !! 1%nat
    = Some img' /\
    id img' = "b" /\
    brightness (adjustments img') = 100%Q /\
    watermark (adjustments img') = "" /\
    overlayImage (adjustments img') = Some "data:image/png;base64,TE9HTw==".
Proof.
  edestruct (auto_enhance_applies_viewed_adjustments_to_selection
               Scenario2.key Scenario2.emptyAnswer Scenario2.fetchOk
               1000 Scenario2.pair Scenario.w0)
    with (k := 1%nat) (img := Scenario2.imgB)
    as (_ & _ & img' & Hk & Hid & _ & _ & _ & _ & Hsel).
  - vm_compute. reflexivity.
  - simpl. lia.
  - vm_compute. reflexivity.
  - vm_compute. reflexivity.
  - reflexivity.
  - exists img'. split; [exact Hk|]. split; [exact Hid|].
    destruct Hsel as (Hb & _ & _ & _ & _ & _ & _ & Hwm & Hov & _); [by_evaluation|].
    split; [exact Hb|]. split; [exact Hwm | exact Hov].
Defined.

(** ** Data URLs *)

Example comma_is_comma : String comma EmptyString = ",".
Proof. reflexivity. Qed.

Lemma split_without_separator (sep : Ascii.ascii) (s : string) :
  contains sep s = false -> split sep s = [s].
Proof.
  induction s as [|c s IH]; [reflexivity|]. simpl.
  intros [Hc Hs]%orb_false_iff. rewrite Hc, (IH Hs). reflexivity.
Qed.

Lemma split_at_first_separator (sep : Ascii.ascii) (p b : string) :
  contains sep p = false ->
  split sep (p +:+ String sep b) = p :: split sep b.
Proof.
  induction p as [|c p IH]; intros Hp.
  - change ("" +:+ String sep b) with (String sep b). simpl.
    by rewrite Ascii.eqb_refl.
  - rewrite append_cons. simpl in *. apply orb_false_iff in Hp as [Hc Hp].
    rewrite Hc, (IH Hp). reflexivity.
Qed.

Lemma split_nonempty (sep : Ascii.ascii) (s : string) : split sep s <> [].
Proof.
  destruct s as [|c s]; simpl; [discriminate|].
  destruct (Ascii.eqb c sep); [discriminate|].
  destruct (split sep s); discriminate.
Qed.

Lemma join_split (sep : Ascii.ascii) (s : string) : join sep (split sep s) = s.
Proof.
  induction s as [|c s IH]; [reflexivity|]. simpl.
  destruct (Ascii.eqb_spec c sep) as [->|Hne].
  - pose proof (split_nonempty sep s) as Hn.
    destruct (split sep s) as [|p rest] eqn:Hs; [contradiction|].
    change (join sep ("" :: p :: rest)) with ("" +:+ String sep (join sep (p :: rest))).
    rewrite IH. reflexivity.
  - pose proof (split_nonempty sep s) as Hn.
    destruct (split sep s) as [|p rest] eqn:Hs; [contradiction|].
    destruct rest as [|q rest].
    + simpl in *. by rewrite IH.
    + change (join sep (String c p :: q :: rest))
        with (String c p +:+ String sep (join sep (q :: rest))).
      change (join sep (p :: q :: rest))
        with (p +:+ String sep (join sep (q :: rest))) in IH.
      rewrite append_cons, IH. reflexivity.
Qed.

Lemma contains_app (c : Ascii.ascii) (a b : string) :
  contains c (a +:+ b) = contains c a || contains c b.
Proof.
  induction a as [|x a IH]; [reflexivity|].
  rewrite append_cons. simpl. by rewrite IH, orb_assoc.
Qed.

Lemma string_app_assoc (a b c : string) : (a +:+ b) +:+ c = a +:+ (b +:+ c).
Proof.
  induction a as [|x a IH]; [reflexivity|].
  rewrite !append_cons. by rewrite IH.
Qed.

Lemma dataUrl_prefix_no_comma (mime : string) :
  contains comma mime = false ->
  exists p, contains comma p = false /\
            forall payload, dataUrl mime payload = p +:+ String comma payload.
Proof.
  intros Hm. exists ("data:" +:+ (mime +:+ ";base64")). split.
  - rewrite !contains_app, Hm. reflexivity.
  - intros payload. unfold dataUrl.
    rewrite !string_app_assoc. reflexivity.
Qed.

Lemma blobToBase64_payload (mime payload : string) :
  contains comma mime = false -> contains comma payload = false ->
  afterComma (dataUrl mime payload) = Some payload.
Proof.
  intros Hm Hp. unfold afterComma.
  destruct (dataUrl_prefix_no_comma mime Hm) as (p & Hpc & Heq).
  rewrite Heq, split_at_first_separator by exact Hpc.
  by rewrite split_without_separator.
Qed.

(** X9. Splitting at commas and joining with commas is the identity on
    every string.  For a data URL whose media type and payload hold no
    comma, [blobToBase64] returns exactly the payload; for a string
    without any comma it returns [undefined]. *)
Theorem blobToBase64_returns_payload_of_data_url (mime payload s : string) :
  join comma (split comma s) = s /\
  (contains comma s = false -> blobToBase64 s = None) /\
  (contains comma mime = false -> contains comma payload = false ->
   blobToBase64 (dataUrl mime payload) = Some payload).
Proof.
  split; [apply join_split|]. split.
  - intros Hs. unfold blobToBase64, afterComma.
    by rewrite split_without_separator.
  - intros Hm Hp. by apply blobToBase64_payload.
Qed.

Lemma blobToBase64_witness :
  blobToBase64 (dataUrl "image/jpeg" "QUJD") = Some "QUJD" /\
  blobToBase64 "QUJD" = None.
Proof.
  destruct (blobToBase64_returns_payload_of_data_url "image/jpeg" "QUJD" "QUJD")
    as (_ & Hnone & Hsome).
  split; [apply Hsome; reflexivity | apply Hnone; reflexivity].
Defined.

(** X10. When background removal succeeds, the payload sent to the model
    was the part of the viewed image's overlay after its first comma, and
    every selected image receives the viewed image's adjustments with the
    overlay replaced by the PNG data URL of the returned payload; detected
    regions are kept and images outside the selection are returned as they
    were.  The new overlay yields the returned payload back when it is
    split again (the payload holding no comma). *)
Theorem remove_background_installs_returned_cutout
        {St} (API_KEY : option string)
        (requestCutout : option string -> Op St (option string))
        (renderedAt : Z) (s : AppState) (w w' : World St)
        (viewed : ImageFile) (overlay newImageBase64 : string)
        (k : nat) (img : ImageFile) :
  viewedImage s = Some viewed ->
  overlayImage (adjustments viewed) = Some overlay -> overlay <> "" ->
  quotaCooldown s <= renderedAt ->
  removeBackgroundWithAI API_KEY requestCutout (afterComma overlay) w
  = (inl newImageBase64, w') ->
  images s !! k = Some img ->
  let s' := fst (handleRemoveBackground API_KEY requestCutout renderedAt s w) in
  let newDataUrl := dataUrl "image/png" newImageBase64 in
  snd (handleRemoveBackground API_KEY requestCutout renderedAt s w) = w' /\
  isProcessing s' = false /\ quotaCooldown s' = quotaCooldown s /\
  (contains comma newImageBase64 = false ->
   afterComma newDataUrl = Some newImageBase64) /\
  exists img',
    images s' !! k = Some img' /\
    id img' = id img /\ privacyRegions img' = privacyRegions img /\
    (id img ∉ selectedImageIds s -> img' = img) /\
    (id img ∈ selectedImageIds s ->
     adjustments img' = withOverlayImage (Some newDataUrl) (adjustments viewed)).
Proof.
  intros Hview Hov Hne Hclosed Hrm Hk s' newDataUrl.
  assert (Hrun : handleRemoveBackground API_KEY requestCutout renderedAt s w =
                 (setIsProcessing false
                    (setProcessingMsg "Fundo removido com sucesso!"
                       (updateAdjustments
                          (withOverlayImage (Some newDataUrl) (adjustments viewed))
                          (setProcessingMsg "Removendo fundo (IA)..."
                             (setIsProcessing true s)))), w')).
  { unfold handleRemoveBackground, isQuotaExhausted. rewrite Hview, Hov.
    destruct (String.eqb_spec overlay ""); [contradiction|].
    apply Z.ltb_ge in Hclosed as ->. rewrite Hrm. reflexivity. }
  subst s'. rewrite Hrun. simpl.
  split; [reflexivity|]. split; [reflexivity|]. split; [reflexivity|]. split.
  - intros Hc.
    apply (blobToBase64_payload "image/png" newImageBase64); [reflexivity | exact Hc].
  - rewrite lookup_map, Hk. simpl. eexists. split; [reflexivity|].
    unfold has. case_bool_decide; simpl.
    + do 2 (split; [reflexivity|]). split; [intros ?; contradiction | reflexivity].
    + do 2 (split; [reflexivity|]). split; [reflexivity | intros ?; contradiction].
Qed.

Lemma remove_background_witness :
  exists img',
    images (fst (handleRemoveBackground Scenario2.key Scenario2.cutout 1000
                   Scenario2.pair Scenario.w0)) !! 1%nat = Some img' /\
    overlayImage (adjustments img') = Some "data:image/png;base64,QUJD" /\
    afterComma "data:image/png;base64,QUJD" = Some "QUJD".
Proof.
  edestruct (remove_background_installs_returned_cutout
               Scenario2.key Scenario2.cutout 1000 Scenario2.pair Scenario.w0)
    with (k := 1%nat) (img := Scenario2.imgB)
    as (_ & _ & _ & Hround & img' & Hk & _ & _ & _ & Hsel).
  - vm_compute. reflexivity.
  - reflexivity.
  - discriminate.
  - simpl. lia.
  - vm_compute. reflexivity.
  - reflexivity.
  - exists img'. split; [exact Hk|]. split.
    + rewrite Hsel by by_evaluation. reflexivity.
    + apply Hround. reflexivity.
Defined.

(** ** Redaction *)

Section RedactionFacts.
Variable W : Z.
Variable data : Z -> Z.
Variables x y w : Z.

Abbreviation rowStep py :=
  (fun cv2 px => pixelate W data x y w py px cv2).




End RedactionFacts.



(** ** Overlay geometry *)

Lemma inject_Z_nonzero (z : Z) : z <> 0 -> ~ (inject_Z z == 0)%Q.
Proof. unfold Qeq, inject_Z. simpl. lia. Qed.

(** X12. An overlay that loaded with size [ow] x [oh] is drawn once, on
    top of what was painted before, with [filter] none and the overlay
    opacity (1 when unset); afterwards the context alpha is 1 again.  Its
    width is the frame width times the scale, its centre is at the
    normalized position, and it keeps the aspect ratio of the overlay.  A
    scale of 0 counts as 0.2 and a coordinate of 0 as 0.5. *)
Theorem overlay_drawn_centred_keeping_aspect
        (B : Browser) (adj : Adjustments) (W H : Z) (cv : Canvas2D)
        (src : string) (ow oh : Z) :
  overlayImage adj = Some src -> src <> "" ->
  loadOverlay B src = OverlayReady ow oh -> ow <> 0 -> oh <> 0 ->
  let scale := (if Qeq_bool (overlayScale adj) 0 then 2 # 10 else overlayScale adj)%Q in
  let cx := (if Qeq_bool (overlayX adj) 0 then 5 # 10 else overlayX adj)%Q in
  let cy := (if Qeq_bool (overlayY adj) 0 then 5 # 10 else overlayY adj)%Q in
  exists c px py dw dh,
    painted (stageOverlay B adj W H cv)
    = painted cv ++ [PDrawImage c src px py (Some (dw, dh))] /\
    filter_ c = [] /\ globalAlpha c = default 1%Q (overlayOpacity adj) /\
    globalAlpha (ctx (stageOverlay B adj W H cv)) = 1%Q /\
    (dw == inject_Z W * scale)%Q /\
    (px + dw / 2 == inject_Z W * cx)%Q /\
    (py + dh / 2 == inject_Z H * cy)%Q /\
    (dw * inject_Z oh == dh * inject_Z ow)%Q.
Proof.
  intros Hov Hne Hload How Hoh scale cx cy.
  unfold stageOverlay. rewrite Hov.
  destruct (String.eqb_spec src ""); [contradiction|]. rewrite Hload.
  eexists _, _, _, _, _. split; [reflexivity|]. simpl.
  split; [reflexivity|]. split; [by destruct (overlayOpacity adj)|].
  split; [reflexivity|].
  pose proof (inject_Z_nonzero ow How). pose proof (inject_Z_nonzero oh Hoh).
  fold scale cx cy. unfold orDefault. fold scale cx cy.
  split; [reflexivity|]. split; [field|]. split; [field; auto | field; auto].
Qed.

Lemma overlay_geometry_witness :
  exists c px py dw dh,
    painted (stageOverlay Scenario.browser Scenario2.withLogo 800 600 blank)
    = [PDrawImage c "data:image/png;base64,TE9HTw==" px py (Some (dw, dh))] /\
    (dw == 160)%Q /\ (dh == 80)%Q /\ (px == 320)%Q /\ (py == 260)%Q.
Proof.
  destruct (overlay_drawn_centred_keeping_aspect
              Scenario.browser Scenario2.withLogo 800 600 blank
              "data:image/png;base64,TE9HTw==" 100 50
              eq_refl ltac:(discriminate) eq_refl ltac:(lia) ltac:(lia))
    as (c & px & py & dw & dh & Hp & _ & _ & _ & Hdw & Hpx & Hpy & Hasp).
  exists c, px, py, dw, dh. split; [exact Hp|].
  simpl in Hp. injection Hp as _ <- <- <- <-.
  repeat split; reflexivity.
Defined.

(** ** Stage order of the export *)

(** X13. Whatever the adjustments, the exported frame is the
    tone-filtered base followed by at most three further paints in this
    order: the warmth fill of the whole frame (present exactly when warmth
    is positive), the overlay image, and the watermark text (present
    exactly when the watermark is not empty).  Overlay and text are issued
    with [filter] none, and nothing is painted for an absent overlay. *)
Theorem export_stages_follow_base_in_fixed_order
        (B : Browser) (adj : Adjustments) (W H : Z)
        (imageUrl : string) (regions : list BoundingBox) :
  exists warm over mark,
    painted (composite B adj W H imageUrl regions)
    = painted (filteredBase B adj W H imageUrl regions) ++ warm ++ over ++ mark /\
    ((warm = [] /\ (warmth adj <= 0)%Q) \/
     (exists c, warm = [PFillRect c 0 0 (inject_Z W) (inject_Z H)] /\
                (0 < warmth adj)%Q)) /\
    (over = [] \/
     exists c src px py size,
       over = [PDrawImage c src px py (Some size)] /\ filter_ c = [] /\
       overlayImage adj = Some src) /\
    ((mark = [] /\ watermark adj = "") \/
     (exists c px py, mark = [PFillText c (watermark adj) px py] /\ filter_ c = [] /\
                      watermark adj <> "")).
Proof.
  unfold composite. fold (filteredBase B adj W H imageUrl regions).
  set (base := filteredBase B adj W H imageUrl regions).
  assert (Hwarm : exists warm,
             painted (stageWarmth adj W H base) = painted base ++ warm /\
             ((warm = [] /\ (warmth adj <= 0)%Q) \/
              (exists c, warm = [PFillRect c 0 0 (inject_Z W) (inject_Z H)] /\
                         (0 < warmth adj)%Q))).
  { unfold stageWarmth. destruct (Qlt_le_dec 0 (warmth adj)) as [Hpos|Hle].
    - eexists. split; [reflexivity|]. right. eexists. by split.
    - exists []. rewrite app_nil_r. split; [reflexivity|]. by left. }
  destruct Hwarm as (warm & Hwarm & Hwcase).
  set (cv1 := stageWarmth adj W H base) in *.
  assert (Hover : exists over,
             painted (stageOverlay B adj W H cv1) = painted cv1 ++ over /\
             (over = [] \/
              exists c src px py size,
                over = [PDrawImage c src px py (Some size)] /\ filter_ c = [] /\
                overlayImage adj = Some src)).
  { unfold stageOverlay. destruct (overlayImage adj) as [src|] eqn:Hov.
    - destruct (String.eqb src "").
      + exists []. rewrite app_nil_r. auto.
      + destruct (loadOverlay B src).
        * eexists. split; [reflexivity|]. right. eexists _, _, _, _, _. by split.
        * exists []. rewrite app_nil_r. auto.
        * exists []. rewrite app_nil_r. auto.
    - exists []. rewrite app_nil_r. auto. }
  destruct Hover as (over & Hover & Hocase).
  set (cv2 := stageOverlay B adj W H cv1) in *.
  assert (Hmark : exists mark,
             painted (stageWatermark adj W H cv2) = painted cv2 ++ mark /\
             ((mark = [] /\ watermark adj = "") \/
              (exists c px py, mark = [PFillText c (watermark adj) px py] /\
                               filter_ c = [] /\ watermark adj <> ""))).
  { unfold stageWatermark. destruct (String.eqb_spec (watermark adj) "") as [He|Hne].
    - exists []. rewrite app_nil_r. auto.
    - eexists. split; [reflexivity|]. right. eexists _, _, _. by split. }
  destruct Hmark as (mark & Hmark & Hmcase).
  exists warm, over, mark. split; [|by split].
  rewrite Hmark, Hover, Hwarm, <- !app_assoc. reflexivity.
Qed.

(** Without privacy blur, or without regions, the redaction stage is the
    identity. *)
Lemma stagePrivacy_noop (B : Browser) (adj : Adjustments) (W H : Z)
      (regions : list BoundingBox) (cv : Canvas2D) :
  privacyBlur adj = false \/ regions = [] ->
  stagePrivacy B adj W H regions cv = cv.
Proof.
  unfold stagePrivacy. intros [->| ->]; [reflexivity|].
  by destruct (privacyBlur adj).
Qed.

(** X14. The export does not wait for detection and honours the switch:
    an image whose privacy blur is off, or whose regions are absent or
    empty, is exported exactly as if it had no regions, and the frame then
    holds no redaction at all: it is the source image followed only by the
    tone-filter pass. *)
Theorem export_unredacted_without_blur_or_regions
        (B : Browser) (imageUrl : string) (adj : Adjustments)
        (regions : option (list BoundingBox)) (quality : option Q) (W H : Z) :
  privacyBlur adj = false \/ regions = None \/ regions = Some [] ->
  processImageOnCanvas B imageUrl adj regions quality
  = processImageOnCanvas B imageUrl adj None quality /\
  filteredBase B adj W H imageUrl (default [] regions)
  = stageFilters B adj W H (drawImage imageUrl 0 0 None blank).
Proof.
  intros Hcase.
  assert (Hnoop : forall W0 H0 cv,
             stagePrivacy B adj W0 H0 (default [] regions) cv = cv).
  { intros. apply stagePrivacy_noop.
    destruct Hcase as [Hb|[->| ->]]; [by left | by right | by right]. }
  split.
  - unfold processImageOnCanvas, composite.
    destruct (loadImage B imageUrl) as [[W0 H0]|]; [|reflexivity].
    destruct (negb (mainContext B)); [reflexivity|].
    change (match regions with Some r => r | None => [] end)
      with (default [] regions).
    rewrite Hnoop. simpl.
    rewrite (stagePrivacy_noop B adj W0 H0 []) by (by right). reflexivity.
  - unfold filteredBase. by rewrite Hnoop.
Qed.

Lemma export_unredacted_witness :
  processImageOnCanvas Scenario.browser "blob:c" Scenario.DEFAULT_ADJUSTMENTS
                       (Some [Scenario.face]) None
  = processImageOnCanvas Scenario.browser "blob:c" Scenario.DEFAULT_ADJUSTMENTS
                         None None.
Proof.
  destruct (export_unredacted_without_blur_or_regions
              Scenario.browser "blob:c" Scenario.DEFAULT_ADJUSTMENTS
              (Some [Scenario.face]) None 800 600) as [Hoff _]; [by left|].
  exact Hoff.
Defined.

(** ** The archive and the export, continued *)

Lemma zipFiles_fold_lookup (files : list ProcessedFile) (n : string) :
  forall zip : gmap string Blob,
    foldl (fun z f => <[file_name f := file_blob f]> z) zip files !! n
    = match last (List.filter (fun f => String.eqb (file_name f) n) files) with
      | Some f => Some (file_blob f)
      | None => zip !! n
      end.
Proof.
  induction files as [|f files IH]; intros zip; [reflexivity|]. simpl.
  rewrite IH. destruct (String.eqb_spec (file_name f) n) as [->|Hne].
  - destruct (List.filter _ files) as [|g l] eqn:Hl.
    + simpl. by rewrite lookup_insert_eq.
    + rewrite last_cons_cons.
      destruct (last (g :: l)) eqn:Hlast; [reflexivity|].
      by apply last_None in Hlast.
  - destruct (last _); [reflexivity|]. by rewrite lookup_insert_ne.
Qed.

(** X15. The archive answers a lookup by name with the blob of the last
    file that carries that name, and has no entry for a name that no file
    carries: a later file replaces an earlier one of the same name. *)
Theorem zipFiles_lookup_is_last_file_of_that_name
        (files : list ProcessedFile) (n : string) :
  zipFiles files !! n
  = file_blob <$> last (List.filter (fun f => String.eqb (file_name f) n) files).
Proof.
  unfold zipFiles. rewrite zipFiles_fold_lookup, lookup_empty.
  by destruct (last _).
Qed.

Lemma export_single_file_witness :
  exists blob,
    downloads (snd (handleBatchDownload Scenario.browser Scenario.badRegionExport))
    = [mkDownload (ImageBlob blob) "edited_bad.jpg"].
Proof.
  eexists.
  apply (export_single_file Scenario.browser Scenario.badRegionExport Scenario.imgBad).
  - vm_compute. reflexivity.
  - vm_compute. reflexivity.
Defined.

Lemma export_archive_witness :
  exists files,
    downloads (snd (handleBatchDownload Scenario.browser Scenario.threePhotos))
    = [mkDownload (ZipArchive (zipFiles files)) "lumina_fotos_editadas.zip"] /\
    file_name <$> files = ["edited_p1.jpg"; "edited_p2.jpg"; "edited_p3.jpg"] /\
    size (zipFiles files) = 3%nat.
Proof.
  eexists.
  edestruct (export_archive Scenario.browser Scenario.threePhotos) as (Hd & Hn & Hs).
  - vm_compute. lia.
  - vm_compute. reflexivity.
  - split; [exact Hd|]. split; [exact Hn|].
    apply Hs. by_evaluation.
Defined.




(** ** Upload and selection *)

Lemma ids_app (l k : list ImageFile) : ids (l ++ k) = ids l ++ ids k.
Proof. unfold ids. apply map_app. Qed.

Lemma ids_newImages (cfg : Adjustments) (files : list Upload) :
  ids (map (newImage cfg) files) = upload_id <$> files.
Proof. unfold ids. rewrite map_map. reflexivity. Qed.

Lemma find_app_none {A} (f : A -> bool) (l k : list A) :
  (forall x, x ∈ l -> f x = false) -> find f (l ++ k) = find f k.
Proof.
  induction l as [|a l IH]; intros Hl; [reflexivity|]. simpl.
  rewrite (Hl a) by left. apply IH. intros x Hx. apply Hl. by right.
Qed.

(** X19. Uploading no file changes nothing.  Uploading files whose new
    ids are distinct and unused keeps the ids of the list unique, appends
    one image per file after the existing ones, each with the default
    configuration and no region state, and makes the first new image the
    viewed image and the only selected one. *)
Theorem upload_appends_images_and_views_first
        (cfg : Adjustments) (first : Upload) (rest : list Upload) (s : AppState) :
  NoDup (ids (images s)) ->
  NoDup (upload_id <$> first :: rest) ->
  (forall u, u ∈ first :: rest -> upload_id u ∉ ids (images s)) ->
  let s' := handleFileUpload cfg (first :: rest) s in
  handleFileUpload cfg [] s = s /\
  NoDup (ids (images s')) /\
  images s' = images s ++ map (newImage cfg) (first :: rest) /\
  (forall u, u ∈ first :: rest ->
     adjustments (newImage cfg u) = cfg /\ privacyRegions (newImage cfg u) = None) /\
  viewImageId s' = Some (upload_id first) /\
  selectedImageIds s' = {[upload_id first]} /\
  viewedImage s' = Some (newImage cfg first).
Proof.
  intros Hnd Hnew Hfresh s'. split; [reflexivity|].
  assert (Himgs : images s' = images s ++ map (newImage cfg) (first :: rest))
    by reflexivity.
  split.
  { rewrite Himgs, ids_app, ids_newImages. apply NoDup_app.
    split; [exact Hnd|]. split; [|exact Hnew].
    intros i Hi Hin. apply list_elem_of_fmap in Hin as (u & -> & Hu).
    by apply (Hfresh u Hu). }
  split; [reflexivity|]. split; [by intros|]. split; [reflexivity|].
  split; [reflexivity|].
  unfold viewedImage. rewrite Himgs, find_app_none.
  - simpl. unfold isViewed at 1. simpl. by rewrite bool_decide_eq_true_2.
  - intros x Hx. unfold isViewed. simpl. apply bool_decide_eq_false. intros [= Heq].
    apply (Hfresh first ltac:(left)). rewrite <- Heq. by apply elem_of_ids.
Qed.

Lemma upload_witness :
  images (handleFileUpload Scenario.DEFAULT_ADJUSTMENTS
            [Scenario3.fileA; Scenario3.fileB] Scenario.gallery)
  = images Scenario.gallery
    ++ map (newImage Scenario.DEFAULT_ADJUSTMENTS) [Scenario3.fileA; Scenario3.fileB] /\
  NoDup (ids (images (handleFileUpload Scenario.DEFAULT_ADJUSTMENTS
                        [Scenario3.fileA; Scenario3.fileB] Scenario.gallery))).
Proof.
  destruct (upload_appends_images_and_views_first
              Scenario.DEFAULT_ADJUSTMENTS Scenario3.fileA [Scenario3.fileB]
              Scenario.gallery) as (_ & Hnd & Himgs & _).
  - by_evaluation.
  - by_evaluation.
  - intros u Hu. apply elem_of_cons in Hu as [->|Hu]; [by_evaluation|].
    apply list_elem_of_singleton in Hu as ->. by_evaluation.
  - split; [exact Himgs | exact Hnd].
Defined.

(** X20. A plain click on a selection box selects exactly the clicked
    image, whatever was selected before.  A multi-select click flips the
    clicked image and leaves the membership of every other image as it
    was, so two such clicks restore the selection.  Neither changes the
    images or the viewed image. *)
Theorem toggleSelection_single_selects_multi_flips
        (id_ : string) (s : AppState) :
  selectedImageIds (toggleSelection id_ false s) = {[id_]} /\
  (id_ ∈ selectedImageIds (toggleSelection id_ true s) <-> id_ ∉ selectedImageIds s) /\
  (forall other, other <> id_ ->
     (other ∈ selectedImageIds (toggleSelection id_ true s)
      <-> other ∈ selectedImageIds s)) /\
  selectedImageIds (toggleSelection id_ true (toggleSelection id_ true s))
  = selectedImageIds s /\
  (forall multi, images (toggleSelection id_ multi s) = images s /\
                 viewImageId (toggleSelection id_ multi s) = viewImageId s).
Proof.
  assert (Hflip : forall sel : gset string,
             id_ ∈ (if has sel id_ then sel ∖ {[id_]} else sel ∪ {[id_]})
             <-> id_ ∉ sel).
  { intros sel. unfold has. case_bool_decide.
    - rewrite elem_of_difference, elem_of_singleton. tauto.
    - rewrite elem_of_union, elem_of_singleton. tauto. }
  assert (Hother : forall (sel : gset string) other, other <> id_ ->
             other ∈ (if has sel id_ then sel ∖ {[id_]} else sel ∪ {[id_]})
             <-> other ∈ sel).
  { intros sel other Hne. unfold has. case_bool_decide.
    - rewrite elem_of_difference, elem_of_singleton. tauto.
    - rewrite elem_of_union, elem_of_singleton. tauto. }
  split; [|split; [|split; [|split]]].
  - unfold toggleSelection. simpl. unfold has.
    rewrite bool_decide_eq_false_2 by apply not_elem_of_empty.
    apply (left_id_L ∅ (∪)).
  - apply Hflip.
  - intros other Hne. by apply Hother.
  - unfold toggleSelection. simpl. apply set_eq. intros z.
    destruct (decide (z = id_)) as [->|Hne].
    + rewrite Hflip, Hflip. destruct (decide (id_ ∈ selectedImageIds s)); tauto.
    + by rewrite !Hother.
  - intros multi. by split.
Qed.

(** X21. With unique image ids and a selection that only holds ids of
    listed images, "select all" clears the selection when every image is
    selected and selects every image otherwise; images and viewed image
    stay as they are. *)
Theorem selectAll_toggles_between_all_and_none (s : AppState) :
  NoDup (ids (images s)) ->
  selectedImageIds s ⊆ list_to_set (ids (images s)) ->
  (selectedImageIds s = list_to_set (ids (images s)) ->
   selectedImageIds (selectAll s) = ∅) /\
  (selectedImageIds s <> list_to_set (ids (images s)) ->
   selectedImageIds (selectAll s) = list_to_set (ids (images s))) /\
  images (selectAll s) = images s /\ viewImageId (selectAll s) = viewImageId s.
Proof.
  intros Hnd Hsub.
  assert (Hsize : size (list_to_set (ids (images s)) : gset string)
                  = length (images s)).
  { rewrite size_list_to_set by exact Hnd. unfold ids. apply length_map. }
  unfold selectAll. split; [|split; [|split]].
  - intros ->. by rewrite Hsize, Nat.eqb_refl.
  - intros Hne. destruct (Nat.eqb_spec (size (selectedImageIds s)) (length (images s)))
      as [Heq|Hneq]; [|reflexivity].
    exfalso. apply Hne.
    apply set_subseteq_size_eq; [exact Hsub | lia].
  - by destruct (Nat.eqb _ _).
  - by destruct (Nat.eqb _ _).
Qed.

Lemma selectAll_witness :
  selectedImageIds (selectAll Scenario.gallery) = ∅ /\
  selectedImageIds (selectAll Scenario3.multi) = {["u"; "x"; "y"]}.
Proof.
  split.
  - apply (selectAll_toggles_between_all_and_none Scenario.gallery);
      [by_evaluation | by_evaluation | by_evaluation].
  - destruct (selectAll_toggles_between_all_and_none Scenario3.multi)
      as (_ & Hall & _); [by_evaluation | by_evaluation |].
    rewrite Hall by by_evaluation. by_evaluation.
Defined.

Lemma toggleSelection_witness :
  ("u" ∈ selectedImageIds (toggleSelection "x" true Scenario3.multi)
   <-> "u" ∈ selectedImageIds Scenario3.multi) /\
  selectedImageIds (toggleSelection "x" false Scenario3.multi) = {["x"]}.
Proof.
  destruct (toggleSelection_single_selects_multi_flips "x" Scenario3.multi)
    as (Hsingle & _ & Hother & _).
  split; [apply Hother; discriminate | exact Hsingle].
Defined.

(** ** Edits through the toolbar *)

Lemma find_map_id_stable (s : AppState) (f : ImageFile -> ImageFile) (l : list ImageFile) :
  (forall i, id (f i) = id i) ->
  find (isViewed s) (map f l) = f <$> find (isViewed s) l.
Proof.
  intros Hf. induction l as [|a l IH]; [reflexivity|]. simpl.
  unfold isViewed at 1 3. rewrite Hf. destruct (bool_decide _); [reflexivity | exact IH].
Qed.

(** The viewed image after an adjustment update. *)
Lemma viewedImage_updateAdjustments (newAdj : Adjustments) (s : AppState) :
  viewedImage (updateAdjustments newAdj s)
  = (fun img => if has (selectedImageIds s) (id img)
                then withAdjustments newAdj img else img) <$> viewedImage s.
Proof.
  unfold viewedImage, updateAdjustments. simpl.
  apply (find_map_id_stable s). intros i. by destruct (has _ _).
Qed.

Lemma viewedImage_elem (s : AppState) (v : ImageFile) :
  viewedImage s = Some v -> v ∈ images s /\ viewImageId s = Some (id v).
Proof.
  unfold viewedImage. intros [Hin Hv]%find_some.
  split; [by apply list_elem_of_In | by apply isViewed_true].
Qed.

(** With distinct ids, the viewed image is the image whose id is viewed. *)
Lemma viewedImage_of_id (s : AppState) (img : ImageFile) :
  NoDup (ids (images s)) -> img ∈ images s -> viewImageId s = Some (id img) ->
  viewedImage s = Some img.
Proof.
  intros Hnd Hin Hv. unfold viewedImage.
  destruct (find (isViewed s) (images s)) as [x|] eqn:Hf.
  - apply find_some in Hf as [Hx Hxv]. apply list_elem_of_In in Hx.
    apply isViewed_true in Hxv. f_equal.
    apply (NoDup_ids_inj (images s)); [done..|congruence].
  - apply list_elem_of_In in Hin.
    pose proof (find_none _ _ Hf img Hin) as Hn.
    assert (isViewed s img = true) by by apply isViewed_true.
    congruence.
Qed.

(** X22. Clicking the thumbnail of an image outside a selection of two
    or more images makes it the viewed image without selecting it.  A
    toolbar edit made then shows the viewed image's adjustments, writes
    the edited copy to every selected image, and leaves the viewed image
    itself as it was.  With at most one image selected, the click selects
    the clicked image alone, and the edit lands on it. *)
Theorem thumbnail_click_then_toolbar_edit
        (cfg : Adjustments) (kv : KeyValue) (s : AppState) (img : ImageFile) :
  NoDup (ids (images s)) -> img ∈ images s -> id img ∉ selectedImageIds s ->
  let s1 := handleThumbnailClick (id img) s in
  let s2 := toolbarUpdate cfg kv s1 in
  viewedImage s1 = Some img /\
  ((2 <= size (selectedImageIds s))%nat ->
   selectedImageIds s1 = selectedImageIds s /\
   viewedImage s2 = Some img /\
   forall other, other ∈ images s -> id other ∈ selectedImageIds s ->
     withAdjustments (update (adjustments img) kv) other ∈ images s2) /\
  ((size (selectedImageIds s) <= 1)%nat ->
   selectedImageIds s1 = {[id img]} /\
   viewedImage s2 = Some (withAdjustments (update (adjustments img) kv) img)).
Proof.
  intros Hnd Hin Hsel s1 s2.
  assert (Hv1 : viewedImage s1 = Some img).
  { apply viewedImage_of_id.
    - subst s1. unfold handleThumbnailClick. by destruct (_ && _).
    - subst s1. unfold handleThumbnailClick. by destruct (_ && _).
    - subst s1. unfold handleThumbnailClick. by destruct (_ && _). }
  assert (Hcur : currentToolbarAdjustments cfg s1 = adjustments img)
    by (unfold currentToolbarAdjustments; by rewrite Hv1).
  split; [exact Hv1|]. split.
  - intros Hmany.
    assert (Hs1 : selectedImageIds s1 = selectedImageIds s /\ images s1 = images s).
    { subst s1. unfold handleThumbnailClick.
      replace (size (selectedImageIds s) <=? 1)%nat with false
        by (symmetry; apply Nat.leb_gt; lia). by simpl. }
    destruct Hs1 as [Hs1 Hi1]. split; [exact Hs1|].
    subst s2. unfold toolbarUpdate. rewrite Hcur. split.
    + rewrite viewedImage_updateAdjustments, Hv1. simpl. rewrite Hs1.
      unfold has. by rewrite bool_decide_eq_false_2.
    + intros other Ho Hos. unfold updateAdjustments. simpl. rewrite Hi1, Hs1.
      apply list_elem_of_In, in_map_iff. exists other.
      split; [|by apply list_elem_of_In].
      unfold has. by rewrite bool_decide_eq_true_2.
  - intros Hfew.
    assert (Hs1 : selectedImageIds s1 = {[id img]}).
    { subst s1. unfold handleThumbnailClick.
      replace (size (selectedImageIds s) <=? 1)%nat with true
        by (symmetry; apply Nat.leb_le; lia).
      unfold has. by rewrite bool_decide_eq_false_2. }
    split; [exact Hs1|].
    subst s2. unfold toolbarUpdate.
    rewrite Hcur, viewedImage_updateAdjustments, Hv1. simpl. rewrite Hs1.
    unfold has. rewrite bool_decide_eq_true_2; [reflexivity|].
    by apply elem_of_singleton.
Qed.

Lemma thumbnail_click_witness :
  viewedImage (toolbarUpdate Scenario.DEFAULT_ADJUSTMENTS (KWatermark "new")
                 (handleThumbnailClick "y" Scenario3.multi))
  = Some Scenario.imgY.
Proof.
  destruct (thumbnail_click_then_toolbar_edit
              Scenario.DEFAULT_ADJUSTMENTS (KWatermark "new")
              Scenario3.multi Scenario.imgY) as (_ & Hmany & _).
  - by_evaluation.
  - apply list_elem_of_In; simpl; tauto.
  - by_evaluation.
  - destruct Hmany as (_ & Hv & _); [vm_compute; lia | exact Hv].
Defined.

(** X23. Switching privacy blur on in the toolbar makes exactly the
    selected images without region state detection candidates, each now
    carrying the edited copy of the viewed image's adjustments; selected
    images that already hold a result, empty or not, are not queued again.
    Switching it off leaves no candidate at all. *)
Theorem privacy_switch_queues_unscanned_selected_images
        (cfg : Adjustments) (s : AppState) (img' : ImageFile) :
  let on := toolbarUpdate cfg (KPrivacyBlur true) s in
  let off := toolbarUpdate cfg (KPrivacyBlur false) s in
  (img' ∈ needsDetection on <->
   exists img, img ∈ images s /\ id img ∈ selectedImageIds s /\
               privacyRegions img = None /\
               img' = withAdjustments
                        (update (currentToolbarAdjustments cfg s) (KPrivacyBlur true))
                        img) /\
  needsDetection off = [].
Proof.
  intros on off. split.
  - rewrite needsDetection_elem. subst on. unfold toolbarUpdate, updateAdjustments.
    simpl. rewrite list_elem_of_In, in_map_iff. split.
    + intros ((img & Himg & Hin) & Hsel & Hblur & Hreg). exists img.
      apply list_elem_of_In in Hin. unfold has in Himg.
      case_bool_decide; subst img'; simpl in *; [by auto|].
      contradiction.
    + intros (img & Hin & Hsel & Hreg & ->). simpl.
      split; [|by auto]. exists img. split; [|by apply list_elem_of_In].
      unfold has. by rewrite bool_decide_eq_true_2.
  - apply elem_of_nil_inv. intros i Hi. apply needsDetection_elem in Hi.
    destruct Hi as (Hin & Hsel & Hblur & _).
    subst off. unfold toolbarUpdate, updateAdjustments in Hin, Hsel. simpl in *.
    apply list_elem_of_In, in_map_iff in Hin as (i0 & Hi0 & _).
    unfold has in Hi0. case_bool_decide; subst i; simpl in *; [discriminate|].
    contradiction.
Qed.

(** ** Filters *)


Lemma updateAdjustments_selected (a : Adjustments) (s : AppState) (img : ImageFile) :
  img ∈ images s -> id img ∈ selectedImageIds s ->
  withAdjustments a img ∈ images (updateAdjustments a s).
Proof.
  intros Hin Hsel. unfold updateAdjustments. simpl.
  apply list_elem_of_In, in_map_iff. exists img.
  split; [|by apply list_elem_of_In].
  unfold has. by rewrite bool_decide_eq_true_2.
Qed.




(** ** Saved configurations *)

Lemma filter_fresh_id (uuid : string) (l : list UserConfig) :
  uuid ∉ map config_id l ->
  List.filter (fun cfg => negb (String.eqb (config_id cfg) uuid)) l = l.
Proof.
  induction l as [|c l IH]; [reflexivity|]. simpl.
  intros [Hne Hl]%not_elem_of_cons.
  destruct (String.eqb_spec (config_id c) uuid) as [Heq|_]; [by destruct Hne|].
  simpl. f_equal. by apply IH.
Qed.

(** X25. Saving with no viewed image changes nothing and writes nothing
    to storage.  With a viewed image, the new configuration holds the
    viewed image's adjustments and heads the list, and storage holds the
    same list, so the next start shows it.  Loading the saved
    configuration gives those adjustments to every selected image.
    Deleting it again, its id being fresh, restores the earlier list in
    state and in storage. *)
Theorem user_config_save_load_delete
        (name_ uuid : string) (createdAt : Z) (s : AppState) (c : ConfigStore) :
  (viewedImage s = None -> handleSaveUserConfig name_ uuid createdAt s c = (s, c)) /\
  (forall viewed, viewedImage s = Some viewed ->
     let saved := mkUserConfig uuid name_ createdAt (adjustments viewed) in
     let c1 := snd (handleSaveUserConfig name_ uuid createdAt s c) in
     userConfigs c1 = saved :: userConfigs c /\
     loadUserConfigs c1 = userConfigs c1 /\
     (forall img, img ∈ images s -> id img ∈ selectedImageIds s ->
        withAdjustments (adjustments viewed) img
        ∈ images (handleLoadUserConfig saved s)) /\
     (uuid ∉ map config_id (userConfigs c) ->
      userConfigs (handleDeleteUserConfig uuid c1) = userConfigs c /\
      loadUserConfigs (handleDeleteUserConfig uuid c1) = userConfigs c)).
Proof.
  unfold handleSaveUserConfig. split; [by intros ->|].
  intros viewed Hv. cbv zeta. rewrite Hv. simpl.
  split; [reflexivity|]. split; [reflexivity|]. split.
  - intros img Hin Hsel. unfold handleLoadUserConfig. simpl.
    by apply (updateAdjustments_selected (adjustments viewed) s).
  - intros Hfresh. unfold handleDeleteUserConfig, loadUserConfigs. simpl.
    rewrite String.eqb_refl. simpl. by rewrite filter_fresh_id.
Qed.

Lemma user_config_witness :
  userConfigs
    (handleDeleteUserConfig "cfg-1"
       (snd (handleSaveUserConfig "Casa" "cfg-1" 1700000000000 Scenario3.multi
               (mkConfigStore [] None))))
  = [].
Proof.
  destruct (user_config_save_load_delete "Casa" "cfg-1" 1700000000000
              Scenario3.multi (mkConfigStore [] None)) as (_ & Hsome).
  destruct (Hsome Scenario.imgU) as (_ & _ & _ & Hdel); [reflexivity|].
  destruct Hdel as [Hstate _]; [simpl; apply not_elem_of_nil | exact Hstate].
Defined.

(** ** Dragging the overlay *)

Lemma Qle_bool_false (a b : Q) : Qle_bool a b = false -> (b < a)%Q.
Proof.
  intros Hf. apply Qnot_le_lt. intros Hle. apply Qle_bool_iff in Hle. congruence.
Qed.

(** [Math.max(lo, Math.min(hi, v))] lies between its bounds. *)
Lemma clamp_bounds (lo hi v : Q) :
  (lo <= hi)%Q -> (lo <= mathMax lo (mathMin hi v) <= hi)%Q.
Proof.
  intros Hb. unfold mathMax, mathMin.
  destruct (Qle_bool hi v) eqn:Hhv.
  - destruct (Qle_bool lo hi) eqn:Hlh.
    + split; [exact Hb | apply Qle_refl].
    + split; [apply Qle_refl | exact Hb].
  - apply Qle_bool_false in Hhv.
    destruct (Qle_bool lo v) eqn:Hlv.
    + apply Qle_bool_iff in Hlv. split; [exact Hlv | by apply Qlt_le_weak].
    + split; [apply Qle_refl | exact Hb].
Qed.

(** A value that is not positive is clamped to a zero. *)
Lemma clamp_nonpositive (v : Q) :
  (v <= 0)%Q -> Qeq_bool (mathMax 0 (mathMin 1 v)) 0 = true.
Proof.
  intros Hv. unfold mathMax, mathMin.
  destruct (Qle_bool 1 v) eqn:H1.
  - apply Qle_bool_iff in H1. exfalso.
    apply (Qlt_irrefl 0). apply Qlt_le_trans with 1%Q; [reflexivity|].
    by apply Qle_trans with v.
  - destruct (Qle_bool 0 v) eqn:H0; [|reflexivity].
    apply Qle_bool_iff in H0. apply Qeq_bool_iff. by apply Qle_antisym.
Qed.

(** X26. While the overlay is dragged over a container of positive size,
    the reported position has both coordinates in [0, 1]; a pointer at or
    left of the container's left edge gives a zero [overlayX], which the
    export reads as the default 0.5.  While it is resized, the reported
    scale lies in [0.05, 2].  In mode none, or without a container, nothing
    is reported.  The reported update is applied to the viewed image's
    adjustments, and the result is given to every selected image. *)
Theorem overlay_drag_clamped_and_given_to_selection
        (rect : Rect) (clientX clientY startY startScale : Q) :
  ((0 < rect_width rect)%Q -> (0 < rect_height rect)%Q ->
   exists x y,
     handleMove ModeMove (Some rect) true clientX clientY startY startScale
     = Some (MoveTo x y) /\
     (0 <= x <= 1)%Q /\ (0 <= y <= 1)%Q /\
     ((clientX <= rect_left rect)%Q -> orDefault x (5 # 10) = (5 # 10)%Q)) /\
  (exists sc,
     handleMove ModeResize (Some rect) true clientX clientY startY startScale
     = Some (ScaleTo sc) /\
     (5 # 100 <= sc <= 2)%Q) /\
  (forall mode present,
     handleMove ModeNone (Some rect) present clientX clientY startY startScale = None /\
     handleMove mode None present clientX clientY startY startScale = None) /\
  (forall u s viewed img,
     viewedImage s = Some viewed -> img ∈ images s -> id img ∈ selectedImageIds s ->
     withAdjustments (applyOverlayUpdate (adjustments viewed) u) img
     ∈ images (onOverlayUpdate u s)).
Proof.
  split; [|split; [|split]].
  - intros Hw Hh. eexists _, _. split; [reflexivity|].
    split; [by apply clamp_bounds|]. split; [by apply clamp_bounds|].
    intros Hleft. unfold orDefault. rewrite clamp_nonpositive; [reflexivity|].
    apply Qle_shift_div_r; [exact Hw|]. rewrite Qmult_0_l.
    apply (Qplus_le_l _ _ (rect_left rect)). ring_simplify. exact Hleft.
  - eexists. split; [reflexivity|]. by apply clamp_bounds.
  - intros mode present. split; [reflexivity | by destruct mode].
  - intros u s viewed img Hv Hin Hsel. unfold onOverlayUpdate. rewrite Hv.
    by apply updateAdjustments_selected.
Qed.

Lemma overlay_drag_witness :
  exists x y,
    handleMove ModeMove (Some (mkRect 10 20 400 300)) true 5 170 0 (2 # 10)
    = Some (MoveTo x y) /\
    (0 <= x <= 1)%Q /\ (0 <= y <= 1)%Q /\
    orDefault x (5 # 10) = (5 # 10)%Q.
Proof.
  destruct (overlay_drag_clamped_and_given_to_selection
              (mkRect 10 20 400 300) 5 170 0 (2 # 10)) as (Hmove & _).
  destruct Hmove as (x & y & Heq & Hx & Hy & Hleft); [reflexivity | reflexivity |].
  exists x, y. split; [exact Heq|]. split; [exact Hx|]. split; [exact Hy|].
  apply Hleft. vm_compute. discriminate.
Defined.

(** ** The cooldown over time *)

(** X27. The remaining seconds never grow as time passes, and read 60 at
    the instant a cooldown of 60 s is set.  A firing of the interval changes
    nothing up to and including the instant of expiry, and otherwise only
    resets the stored timestamp to 0. *)
Theorem cooldown_counts_down_tick_only_resets (s : AppState) (t1 t2 : Z) :
  (t1 <= t2 ->
   cooldownRemaining (quotaCooldown s) t2 <= cooldownRemaining (quotaCooldown s) t1) /\
  cooldownRemaining (t1 + 60 * 1000) t1 = 60 /\
  (t1 <= quotaCooldown s -> cooldownTick t1 s = s) /\
  (cooldownTick t1 s = s \/ cooldownTick t1 s = setQuotaCooldown 0 s).
Proof.
  split; [|split; [|split]].
  - intros Hle. rewrite !cooldownRemaining_div.
    pose proof (Z.div_le_mono (t1 - quotaCooldown s) (t2 - quotaCooldown s) 1000
                  ltac:(lia) ltac:(lia)).
    lia.
  - rewrite cooldownRemaining_div.
    replace (t1 - (t1 + 60 * 1000)) with ((-60) * 1000) by lia.
    by rewrite Z.div_mul.
  - intros Hle. unfold cooldownTick.
    destruct (0 <? quotaCooldown s); [|reflexivity].
    by apply Z.ltb_ge in Hle as ->.
  - unfold cooldownTick.
    destruct (0 <? quotaCooldown s); [|by left].
    destruct (quotaCooldown s <? t1); [by right | by left].
Qed.

Lemma cooldown_counts_down_witness :
  cooldownRemaining 61000 31500 <= cooldownRemaining 61000 1000 /\
  cooldownTick 61000 (setQuotaCooldown 61000 Scenario3.multi)
  = setQuotaCooldown 61000 Scenario3.multi.
Proof.
  destruct (cooldown_counts_down_tick_only_resets
              (setQuotaCooldown 61000 Scenario3.multi) 1000 31500) as (Hmono & _).
  destruct (cooldown_counts_down_tick_only_resets
              (setQuotaCooldown 61000 Scenario3.multi) 61000 0) as (_ & _ & Htick & _).
  split; [apply Hmono; lia | apply Htick; simpl; lia].
Defined.

(** ** What a detection trigger leaves alone *)

Section DetectionFrame.
Context {St : Type}.
Variable API_KEY : option string.
Variable requestBoxes : string -> Op St (list BoundingBox).
Variable fetchBase64 : string -> Op St string.

Lemma storeRegions_adjustments (t : string) (bs : list BoundingBox) (s : AppState) :
  map adjustments (images (storeRegions t bs s)) = map adjustments (images s).
Proof.
  unfold storeRegions. simpl. rewrite map_map. apply map_ext.
  intros i. by destruct (String.eqb (id i) t).
Qed.

(** The loop writes regions and, on a quota error, the cooldown and the
    message; nothing else. *)
Lemma processQueue_state cd q :
  forall s (w : World St) s' w' x,
    processQueue API_KEY requestBoxes fetchBase64 cd q s w = (s', w', x) ->
    viewImageId s' = viewImageId s /\
    selectedImageIds s' = selectedImageIds s /\
    isDetectingPrivacyRef s' = isDetectingPrivacyRef s /\
    isProcessing s' = isProcessing s /\
    map adjustments (images s') = map adjustments (images s) /\
    (quotaCooldown s' = quotaCooldown s \/ quotaCooldown s' = now w' + 60 * 1000).
Proof.
  induction q as [|c rest IH]; intros s w s' w' x; simpl.
  - intros [= <- <- <-]. by auto 10.
  - destruct (now w <? cd); [intros [= <- <- <-]; by auto 10|].
    destruct (detectFor API_KEY requestBoxes fetchBase64 c w) as [[[bs|]|e] w1].
    + intros (Hv & Hs & Hl & Hp & Ha & Hc)%IH.
      rewrite storeRegions_adjustments in Ha. by auto 10.
    + apply IH.
    + destruct (isGeminiQuotaError e); [|apply IH].
      intros [= <- <- <-]. simpl. by auto 10.
Qed.

(** A detection trigger keeps the ids of the list, the selection and the
    viewed id. *)
Lemma checkPrivacy_changes_only_candidate_frame (s : AppState) (w : World St) :
  let r := checkPrivacy API_KEY requestBoxes fetchBase64 s w in
  ids (images (fst r)) = ids (images s) /\
  selectedImageIds (fst r) = selectedImageIds s /\
  viewImageId (fst r) = viewImageId s.
Proof.
  intros r. subst r. unfold checkPrivacy.
  destruct (isDetectingPrivacyRef s); [done|].
  destruct (now w <? quotaCooldown s); [done|].
  destruct (Nat.eqb _ 0); [done|].
  destruct (processQueue _ _ _ _ _ _ _) as [[s1 w1] x] eqn:Hrun. simpl.
  pose proof (processQueue_state _ _ _ _ _ _ _ Hrun) as (Hv & Hs & _).
  pose proof (processQueue_frame API_KEY requestBoxes fetchBase64 _ _ _ _ _ _ _ Hrun)
    as [Hids _].
  by simpl in *.
Qed.

(** X28. Whatever a detection trigger does, it keeps the image list's ids
    and order, every image's adjustments, the viewed id, the selection and
    the processing flag, and it ends with the lock as it found it.  Images
    whose id is not that of a candidate are left exactly as they were.
    The cooldown is either unchanged or set 60 s after the clock reading
    at the end of the run, and the clock and the log of remote events only
    grow. *)
Theorem checkPrivacy_changes_only_candidate_regions_and_cooldown
        (s : AppState) (w : World St) :
  let r := checkPrivacy API_KEY requestBoxes fetchBase64 s w in
  ids (images (fst r)) = ids (images s) /\
  map adjustments (images (fst r)) = map adjustments (images s) /\
  viewImageId (fst r) = viewImageId s /\
  selectedImageIds (fst r) = selectedImageIds s /\
  isProcessing (fst r) = isProcessing s /\
  isDetectingPrivacyRef (fst r) = isDetectingPrivacyRef s /\
  (forall i, i ∈ images s -> id i ∉ ids (needsDetection s) -> i ∈ images (fst r)) /\
  (quotaCooldown (fst r) = quotaCooldown s \/
   quotaCooldown (fst r) = now (snd r) + 60 * 1000) /\
  extends w (snd r).
Proof.
  intros r. subst r. unfold checkPrivacy.
  destruct (isDetectingPrivacyRef s) eqn:Hlock;
    [simpl; repeat split; auto; apply extends_refl || done|].
  destruct (now w <? quotaCooldown s);
    [simpl; repeat split; auto; apply extends_refl || done|].
  destruct (Nat.eqb _ 0);
    [simpl; repeat split; auto; apply extends_refl || done|].
  destruct (processQueue _ _ _ _ _ _ _) as [[s1 w1] x] eqn:Hrun. simpl.
  pose proof (processQueue_state _ _ _ _ _ _ _ Hrun) as (Hv & Hs & Hl & Hp & Ha & Hc).
  pose proof (processQueue_frame API_KEY requestBoxes fetchBase64 _ _ _ _ _ _ _ Hrun)
    as [Hids Hfr].
  pose proof (processQueue_extends API_KEY requestBoxes fetchBase64 _ _ _ _ _ _ _ Hrun)
    as Hext.
  simpl in *. repeat split; auto; try apply Hext.
  intros i Hin Hni. apply Hfr; [exact Hin|].
  intros Hq. apply Hni. rewrite ids_fmap in Hq |- *.
  apply list_elem_of_fmap in Hq as (j & -> & Hj).
  apply list_elem_of_fmap. exists j. split; [reflexivity|].
  by apply detectionQueue_elem.
Qed.

End DetectionFrame.

Lemma checkPrivacy_frame_witness :
  Scenario.imgB
  ∈ images (fst (checkPrivacy Scenario.API_KEY Scenario.requestBoxes
                   (fun url => Scenario2.fetchOk url) Scenario.mixed Scenario.w0)).
Proof.
  destruct (checkPrivacy_changes_only_candidate_regions_and_cooldown
              Scenario.API_KEY Scenario.requestBoxes (fun url => Scenario2.fetchOk url)
              Scenario.mixed Scenario.w0) as (_ & _ & _ & _ & _ & _ & Hfr & _).
  apply Hfr; [apply list_elem_of_In; simpl; tauto | by_evaluation].
Defined.

(** ** Privacy indicators of the preview *)

Lemma previewAnalysing_spec (image : ImageFile) :
  previewAnalysing image = true <->
  privacyBlur (adjustments image) = true /\ privacyRegions image = None.
Proof.
  unfold previewAnalysing.
  destruct (privacyBlur (adjustments image)); simpl; [|by split; [|intros []]].
  destruct (privacyRegions image) as [r|].
  - rewrite bool_decide_eq_true_2 by (by eexists). simpl. by split; [|intros []].
  - rewrite bool_decide_eq_false_2 by (by intros [? ?]). by split.
Qed.

(** X29. With privacy blur off the preview shows no privacy indicator and
    no redaction box.  With it on, exactly one of the three is shown: the
    analysing indicator while the image has no region state, the clean
    indicator when the stored list is empty, and otherwise the stored boxes.
    An image of the list is a detection candidate exactly when it is
    selected and shows the analysing indicator, so an unselected image
    keeps showing it without ever being queued. *)
Theorem preview_shows_one_privacy_indicator (s : AppState) (image : ImageFile) :
  (privacyBlur (adjustments image) = false ->
   previewAnalysing image = false /\ isPrivacyScanClean image = false /\
   previewBoxes image = []) /\
  (privacyBlur (adjustments image) = true ->
   (privacyRegions image = None /\ previewAnalysing image = true /\
    isPrivacyScanClean image = false /\ previewBoxes image = []) \/
   (privacyRegions image = Some [] /\ previewAnalysing image = false /\
    isPrivacyScanClean image = true /\ previewBoxes image = []) \/
   (exists b bs, privacyRegions image = Some (b :: bs) /\
    previewAnalysing image = false /\ isPrivacyScanClean image = false /\
    previewBoxes image = b :: bs)) /\
  (image ∈ images s ->
   (image ∈ needsDetection s <->
    id image ∈ selectedImageIds s /\ previewAnalysing image = true)).
Proof.
  unfold previewAnalysing, isPrivacyScanClean, previewBoxes.
  split; [|split].
  - by intros ->.
  - intros ->. destruct (privacyRegions image) as [[|b bs]|]; simpl.
    + right; left. by auto.
    + right; right. exists b, bs. by auto.
    + left. by auto.
  - intros Hin. rewrite needsDetection_elem.
    fold (previewAnalysing image). rewrite previewAnalysing_spec. tauto.
Qed.

Lemma preview_indicator_witness :
  previewAnalysing Scenario.imgA = true /\ Scenario.imgA ∉ needsDetection Scenario.mixed.
Proof.
  destruct (preview_shows_one_privacy_indicator Scenario.mixed Scenario.imgA)
    as (_ & Hon & Hiff).
  split.
  - destruct Hon as [(_ & Ha & _)|[(Hr & _)|(b & bs & Hr & _)]];
      [reflexivity | exact Ha | discriminate Hr | discriminate Hr].
  - intros Hc. apply Hiff in Hc; [|apply list_elem_of_In; simpl; tauto].
    destruct Hc as [Hsel _]. revert Hsel. by_evaluation.
Defined.

(** ** The selection names images of the list *)

Lemma updateAdjustments_ids (a : Adjustments) (s : AppState) :
  ids (images (updateAdjustments a s)) = ids (images s).
Proof.
  unfold updateAdjustments, ids. simpl. rewrite map_map. apply map_ext.
  intros i. by destruct (has _ _).
Qed.

Lemma selectionWithinImages_frame (s s' : AppState) :
  ids (images s') = ids (images s) -> selectedImageIds s' = selectedImageIds s ->
  viewImageId s' = viewImageId s ->
  selectionWithinImages s -> selectionWithinImages s'.
Proof. unfold selectionWithinImages. by intros -> -> ->. Qed.

(** X30. In the initial state, and after every handler that changes the
    image list, the selection or the viewed image, every selected id and
    the viewed id name an image of the list: uploads, a toggle or a click
    on the thumbnail of a listed image, select all, clearing the list,
    adjustment updates and detection triggers keep it so. *)
Theorem selection_and_view_stay_within_images (cfg : Adjustments) (s : AppState) :
  selectionWithinImages (mkAppState [] None ∅ false "" 0 false) /\
  (selectionWithinImages s ->
   (forall files, selectionWithinImages (handleFileUpload cfg files s)) /\
   (forall id_ multi, id_ ∈ ids (images s) ->
      selectionWithinImages (toggleSelection id_ multi s) /\
      selectionWithinImages (handleThumbnailClick id_ s)) /\
   selectionWithinImages (selectAll s) /\
   (forall confirmed, selectionWithinImages (clearAllPhotos confirmed s)) /\
   (forall a, selectionWithinImages (updateAdjustments a s)) /\
   (forall St key (requestBoxes : string -> Op St (list BoundingBox))
           (fetchBase64 : string -> Op St string) (w : World St),
      selectionWithinImages (fst (checkPrivacy key requestBoxes fetchBase64 s w)))).
Proof.
  split; [split; [by intros x ?%elem_of_empty | by intros v [=]]|].
  intros [Hsel Hview]. split; [|split; [|split; [|split; [|split]]]].
  - intros [|first rest]; [by split|]. unfold handleFileUpload.
    assert (Hfirst : upload_id first
                     ∈ ids (images s ++ map (newImage cfg) (first :: rest))).
    { rewrite ids_app, ids_newImages. apply elem_of_app. right. by left. }
    split; simpl.
    + by intros x ->%elem_of_singleton.
    + by intros v [= <-].
  - intros id_ multi Hid. split.
    + split; [|exact Hview]. unfold toggleSelection. simpl. intros x.
      destruct (has _ id_).
      * intros [Hx _]%elem_of_difference. destruct multi; [by apply Hsel|].
        by apply elem_of_empty in Hx.
      * intros [Hx| ->%elem_of_singleton]%elem_of_union; [|exact Hid].
        destruct multi; [by apply Hsel|]. by apply elem_of_empty in Hx.
    + unfold handleThumbnailClick. destruct (_ && _); split; simpl.
      * by intros x ->%elem_of_singleton.
      * by intros v [= <-].
      * exact Hsel.
      * by intros v [= <-].
  - unfold selectAll. destruct (Nat.eqb _ _); split; simpl.
    + by intros x ?%elem_of_empty.
    + exact Hview.
    + by intros x ?%elem_of_list_to_set.
    + exact Hview.
  - intros [|]; [|by split]. unfold clearAllPhotos. split; simpl.
    + by intros x ?%elem_of_empty.
    + by intros v [=].
  - intros a. apply (selectionWithinImages_frame s); [|done..|by split].
    apply updateAdjustments_ids.
  - intros St key requestBoxes fetchBase64 w.
    pose proof (checkPrivacy_changes_only_candidate_frame key requestBoxes
                  fetchBase64 s w) as (Hids & Hs & Hv).
    by apply (selectionWithinImages_frame s); [| | |split].
Qed.

Lemma selection_within_images_witness :
  selectionWithinImages (selectAll Scenario3.multi) /\
  selectionWithinImages (toggleSelection "y" true Scenario3.multi).
Proof.
  assert (Hinv : selectionWithinImages Scenario3.multi).
  { split.
    - intros x Hx. apply elem_of_union in Hx as [Hx|Hx];
        apply elem_of_singleton in Hx; subst x; by_evaluation.
    - intros v [= <-]. by_evaluation. }
  destruct (selection_and_view_stay_within_images
              Scenario.DEFAULT_ADJUSTMENTS Scenario3.multi) as (_ & Hkeep).
  destruct (Hkeep Hinv) as (_ & Hthumb & Hall & _).
  split; [exact Hall|]. apply Hthumb. by_evaluation.
Defined.
